(** * Drawing-to-skeleton pipeline and surface-anchored placement (app.js)

    A shallow embedding of [src/app.js]: the contour selection and box
    partition of [processDrawingImage], the rig construction of
    [replaceWithSkeleton], the per-frame reticle update and the click
    handler of [initAR], and the scale animation of [popIn].  Line numbers
    refer to that file.  (The second source file is an earlier draft of it:
    [processDrawingImage] and [createSkeletonModel] are nested in [initAR]
    there and never called.  The partition and the positions of the three
    boxes read the same; the old model is removed from the scene before the
    group is built; five buffers are allocated and deleted at the end.
    Module [Draft] embeds its render callback, its click handler and these
    two functions.)

    Around the session, the file also embeds the page (error banner, upload
    and start button, module [Page]), the wait for OpenCV (module
    [OpenCvReady]), and the sizing of renderer and camera (module
    [Viewport]).

    Conventions.
    - A JavaScript Number is a rational ([Q]); arithmetic is exact, so the
      rounding of binary64 is idealised away.  Numbers that are computed are
      compared with [Qeq], numbers that are copied with Leibniz equality.
      Module [Binary64] repeats the arithmetic in IEEE 754 binary64 and
      evaluates it at the values of the scenario.
    - OpenCV.js, three.js and WebXR are collaborators whose code is not part
      of the repository.  Their results enter as parameters (the contours an
      image yields, the pose a hit resolves to, the value [Math.random]
      returns), and their objects are modelled by the fields the application
      reads and writes.
    - three.js objects are mutable and shared (the scene graph, the global
      [model], the closure of [popIn] all point at the same object), so they
      live in a store keyed by object identity. *)

From Stdlib Require Import PrimFloat.
From Stdlib Require Import QArith Qminmax Qpower Lqa.
From Stdlib Require Import String.
From stdpp Require Import base option list gmap.

(* In float_scope a decimal literal denotes the nearest binary64 value, as
   in JavaScript. *)
Set Warnings "-inexact-float".

(** ** JavaScript numbers *)

Module Js.

(** [a > b] on numbers, as a boolean. *)
Definition gt (a b : Q) : bool := negb (Qle_bool a b).

(** [a < b] on numbers, as a boolean. *)
Definition lt (a b : Q) : bool := negb (Qle_bool b a).

(** [Math.min(a, b)]. *)
Definition Math_min (a b : Q) : Q := Qmin a b.

(** [Math.pow(a, n)] for a literal integer exponent. *)
Definition Math_pow (a : Q) (n : Z) : Q := (a ^ n)%Q.

(** [Math.PI]: the binary64 value 0x1.921fb54442d18p+1, as a fraction. *)
Definition Math_PI : Q := (884279719003555 # 281474976710656)%Q.

End Js.

(** ** Rectangles and the three part boxes *)

(** [{x, y, width, height}]: the shape of [cv.boundingRect]'s result and of
    [headBox], [bodyBox] and [legsBox]. *)
Record Rect := mkRect { x : Q; y : Q; width : Q; height : Q }.

(** Field-wise numeric equality of two rectangles. *)
Definition Rect_eq (r s : Rect) : Prop :=
  (x r == x s /\ y r == y s /\ width r == width s /\ height r == height s)%Q.

(** [{ headBox, bodyBox, legsBox, imgW, imgH }]. *)
Record Parts := mkParts {
  headBox : Rect;
  bodyBox : Rect;
  legsBox : Rect;
  imgW : Q;
  imgH : Q
}.

(** ** OpenCV.js: native buffers and calls *)

(** The native objects [processDrawingImage] creates: those it binds to the
    local variables [src] to [hierarchy], and the matrix that
    [contours.get(i)] returns for the contour of index [i] (a new handle at
    every call, which lives until its own [delete()]). *)
Inductive Buffer :=
| src | gray | blur | binary | kernel | contours | hierarchy
| contour_at (i : nat).

#[global] Instance Buffer_eq_dec : EqDecision Buffer.
Proof. solve_decision. Defined.

(** The steps of [processDrawingImage] that can throw, in program order:
    reading the image back from the canvas ([getImageData], lines 250-255),
    then the calls into OpenCV.js. *)
Inductive CvCall :=
| getImageData
| matFromImageData | new_Mat_gray | cvtColor | new_Mat_blur | GaussianBlur
| new_Mat_binary | threshold | Mat_ones | morphologyEx | new_MatVector
| new_Mat_hierarchy | findContours | MatVector_get | contourArea | boundingRect.

#[global] Instance CvCall_eq_dec : EqDecision CvCall.
Proof. solve_decision. Defined.

(** How a call into the pipeline ends: with a value, or with an exception
    raised at the named step. *)
Inductive Completion (A : Type) :=
| Normal (a : A)
| Throw (c : CvCall).
Arguments Normal {A} a.
Arguments Throw {A} c.

(** The native heap: the buffers that are allocated and not yet deleted, most
    recent first. *)
Definition NativeHeap := list Buffer.

(** A computation that may allocate and delete native buffers and may throw. *)
Definition Cv (A : Type) : Type := NativeHeap -> Completion A * NativeHeap.

Definition cv_ret {A} (a : A) : Cv A := fun h => (Normal a, h).

Definition cv_bind {A B} (m : Cv A) (k : A -> Cv B) : Cv B :=
  fun h => match m h with
           | (Normal a, h') => k a h'
           | (Throw c, h') => (Throw c, h')
           end.

Declare Scope cv_scope.
Delimit Scope cv_scope with cv.
Notation "'let*' x ':=' m 'in' k" := (cv_bind m (fun x => k))
  (at level 10, x name, m at level 100, k at level 200) : cv_scope.
Notation "m ';;;' k" := (cv_bind m (fun _ => k))
  (at level 100, k at level 200, right associativity) : cv_scope.

(** [b.delete()]: the most recent live buffer bound to [b] is released. *)
Fixpoint release (b : Buffer) (h : NativeHeap) : NativeHeap :=
  match h with
  | [] => []
  | b' :: h' => if decide (b' = b) then h' else b' :: release b h'
  end.

Definition delete (b : Buffer) : Cv unit := fun h => (Normal (), release b h).

(** ** The OpenCV capability

    What the image-processing library contributes to one call: the matrix
    each stage computes, the contours found, the area and the bounding
    rectangle of a contour, and which steps raise an exception in the run
    at hand ([cv_throws], which also tells whether the browser fails the
    canvas step). *)

Record OpenCV (image mat contour : Type) := mkOpenCV {
  cv_matFromImageData : image -> mat;
  cv_cvtColor : mat -> mat;
  cv_GaussianBlur : mat -> mat;
  cv_threshold : mat -> mat;
  cv_morphologyEx : mat -> mat;
  cv_findContours : mat -> list contour;
  cv_contourArea : contour -> Q;
  cv_boundingRect : contour -> Rect;
  cv_throws : CvCall -> bool
}.
Arguments cv_matFromImageData {image mat contour} _ _.
Arguments cv_cvtColor {image mat contour} _ _.
Arguments cv_GaussianBlur {image mat contour} _ _.
Arguments cv_threshold {image mat contour} _ _.
Arguments cv_morphologyEx {image mat contour} _ _.
Arguments cv_findContours {image mat contour} _ _.
Arguments cv_contourArea {image mat contour} _ _.
Arguments cv_boundingRect {image mat contour} _ _.
Arguments cv_throws {image mat contour} _ _.

(** An uploaded image: its pixels and its [width] and [height]. *)
Record ImageElement (image : Type) := mkImage {
  pixels : image;
  img_width : Q;
  img_height : Q
}.
Arguments mkImage {image} _ _ _.
Arguments pixels {image} _.
Arguments img_width {image} _.
Arguments img_height {image} _.

Section ProcessDrawingImage.

Context {image mat contour : Type} (cv : OpenCV image mat contour).

(** A call that allocates nothing. *)
Definition call {A} (c : CvCall) (result : A) : Cv A :=
  fun h => if cv_throws cv c then (Throw c, h) else (Normal result, h).

(** A call whose result is a new native object bound to [b]. *)
Definition alloc {A} (c : CvCall) (b : Buffer) (result : A) : Cv A :=
  fun h => if cv_throws cv c then (Throw c, h) else (Normal result, b :: h).

(** Lines 250-255: the image is drawn on a canvas of its own size and read
    back; no native buffer is involved.  [getImageData] throws when the
    width or the height is zero, and the browser can fail the step for
    reasons of its own (no 2D context, a canvas too large). *)
Definition canvas_imageData (imageElement : ImageElement image) : Cv image :=
  fun h =>
    if Qeq_bool (img_width imageElement) 0
       || Qeq_bool (img_height imageElement) 0
       || cv_throws cv getImageData
    then (Throw getImageData, h)
    else (Normal (pixels imageElement), h).

(** The box partition of lines 292-313: three boxes cut from [rect] by
    fixed fractions. *)
Definition partition (rect : Rect) (canvas_width canvas_height : Q) : Parts :=
  let headBox :=
    {| x := x rect + width rect * 0.25;
       y := y rect;
       width := width rect * 0.5;
       height := height rect * 0.2 |} in
  let bodyBox :=
    {| x := x rect + width rect * 0.2;
       y := y rect + height rect * 0.2;
       width := width rect * 0.6;
       height := height rect * 0.4 |} in
  let legsBox :=
    {| x := x rect + width rect * 0.2;
       y := y rect + height rect * 0.6;
       width := width rect * 0.6;
       height := height rect * 0.4 |} in
  {| headBox := headBox; bodyBox := bodyBox; legsBox := legsBox;
     imgW := canvas_width; imgH := canvas_height |}.

(** The loop of lines 279-288, from index [i] on, with the current values
    of [maxArea] and [maxContour]; [cs] are the contours from [i] on.  The
    handle [contours.get(i)] returns is deleted nowhere. *)
Fixpoint scan (cs : list contour) (i : nat) (maxArea : Q)
    (maxContour : option contour) : Cv (option contour) :=
  match cs with
  | [] => cv_ret maxContour
  | c :: rest =>
      (let* c := alloc MatVector_get (contour_at i) c in
       let* a := call contourArea (cv_contourArea cv c) in
       if Js.gt a maxArea then scan rest (S i) a (Some c)
       else scan rest (S i) maxArea maxContour)%cv
  end.

Definition processDrawingImage (imageElement : ImageElement image)
  : Cv (option Parts) :=
  (let canvas_width := img_width imageElement in
   let canvas_height := img_height imageElement in
   let* imageData := canvas_imageData imageElement in
   let* src_ := alloc matFromImageData src (cv_matFromImageData cv imageData) in
   alloc new_Mat_gray gray () ;;;
   let* gray_ := call cvtColor (cv_cvtColor cv src_) in
   alloc new_Mat_blur blur () ;;;
   let* blur_ := call GaussianBlur (cv_GaussianBlur cv gray_) in
   alloc new_Mat_binary binary () ;;;
   let* binary_ := call threshold (cv_threshold cv blur_) in
   alloc Mat_ones kernel () ;;;
   let* binary_ := call morphologyEx (cv_morphologyEx cv binary_) in
   alloc new_MatVector contours () ;;;
   alloc new_Mat_hierarchy hierarchy () ;;;
   let* contours_ := call findContours (cv_findContours cv binary_) in
   let* maxContour := scan contours_ 0 0 None in
   let* parts :=
     match maxContour with
     | Some c =>
         let* rect := call boundingRect (cv_boundingRect cv c) in
         cv_ret (Some (partition rect canvas_width canvas_height))
     | None => cv_ret None
     end in
   delete src ;;; delete gray ;;; delete blur ;;; delete binary ;;;
   delete kernel ;;; delete contours ;;; delete hierarchy ;;;
   cv_ret parts)%cv.

(** The contours [cv.findContours] is given to fill in for an image: the
    stages of lines 258-277 applied in order. *)
Definition outer_boundaries (imageElement : ImageElement image) : list contour :=
  cv_findContours cv
    (cv_morphologyEx cv
       (cv_threshold cv
          (cv_GaussianBlur cv
             (cv_cvtColor cv
                (cv_matFromImageData cv (pixels imageElement)))))).

(** [c] is the first contour of [cs] whose area is the greatest, and that
    area exceeds [floor]. *)
Definition first_largest_above (floor : Q) (cs : list contour) (c : contour) : Prop :=
  exists pre post,
    cs = pre ++ c :: post /\
    (floor < cv_contourArea cv c)%Q /\
    Forall (fun c' => (cv_contourArea cv c' < cv_contourArea cv c)%Q) pre /\
    Forall (fun c' => (cv_contourArea cv c' <= cv_contourArea cv c)%Q) post.

(** What the loop returns when started with [maxArea] and [maxContour]. *)
Definition scan_result (cs : list contour) (maxArea : Q)
    (maxContour r : option contour) : Prop :=
  (r = maxContour /\ Forall (fun c => (cv_contourArea cv c <= maxArea)%Q) cs) \/
  (exists c, r = Some c /\ first_largest_above maxArea cs c).

(** The value a call of [processDrawingImage] returns for the selection
    [sel] of the loop. *)
Definition parts_of (imageElement : ImageElement image) (sel : option contour)
  : option Parts :=
  match sel with
  | Some c => Some (partition (cv_boundingRect cv c)
                      (img_width imageElement) (img_height imageElement))
  | None => None
  end.

End ProcessDrawingImage.

(** ** three.js objects *)

Module Vector3.
(** [THREE.Vector3]; also used for the three angles of [THREE.Euler]. *)
Record t := mk { x : Q; y : Q; z : Q }.

(** [v.set(x, y, z)]. *)
Definition set (x y z : Q) : t := mk x y z.
End Vector3.

Module Matrix4.
(** [THREE.Matrix4.elements], sixteen numbers in column-major order. *)
Definition t := list Q.

Definition identity : t :=
  [1; 0; 0; 0;  0; 1; 0; 0;  0; 0; 1; 0;  0; 0; 0; 1]%Q.

(** [m.fromArray(array)]: the first sixteen entries of [array] (an
    [XRRigidTransform.matrix] has exactly sixteen). *)
Definition fromArray (array : list Q) : t := take 16 array.

(** [v.setFromMatrixPosition(m)]: the translation column, entries 12-14. *)
Definition position (m : t) : Vector3.t :=
  Vector3.mk (nth 12 m 0%Q) (nth 13 m 0%Q) (nth 14 m 0%Q).
End Matrix4.

(** Object identity: what [===] compares. *)
Abbreviation Ref := nat (only parsing).

Inductive Geometry :=
| RingGeometry (innerRadius outerRadius : Q) (thetaSegments : Z)
| BoxGeometry (width height depth : Q).

(** What was constructed; of a material only the colour is kept. *)
Inductive Kind :=
| Scene
| HemisphereLight (skyColor groundColor : Z) (intensity : Q)
| Mesh (geometry : Geometry) (color : Z)
| Group.

(** The fields of a [THREE.Object3D] the application touches. *)
Record Object3D := mkObject3D {
  kind : Kind;
  visible : bool;
  position : Vector3.t;
  rotation : Vector3.t;
  scale : Vector3.t;
  matrix : Matrix4.t;
  matrixAutoUpdate : bool;
  children : list Ref
}.

(** A freshly constructed object. *)
Definition new_Object3D (k : Kind) : Object3D :=
  {| kind := k;
     visible := true;
     position := Vector3.mk 0 0 0;
     rotation := Vector3.mk 0 0 0;
     scale := Vector3.mk 1 1 1;
     matrix := Matrix4.identity;
     matrixAutoUpdate := true;
     children := [] |}.

Definition set_visible (b : bool) (o : Object3D) : Object3D :=
  mkObject3D (kind o) b (position o) (rotation o) (scale o) (matrix o)
    (matrixAutoUpdate o) (children o).

Definition set_position (p : Vector3.t) (o : Object3D) : Object3D :=
  mkObject3D (kind o) (visible o) p (rotation o) (scale o) (matrix o)
    (matrixAutoUpdate o) (children o).

(** [o.rotation.y = a]. *)
Definition set_rotation_y (a : Q) (o : Object3D) : Object3D :=
  mkObject3D (kind o) (visible o) (position o)
    (Vector3.mk (Vector3.x (rotation o)) a (Vector3.z (rotation o)))
    (scale o) (matrix o) (matrixAutoUpdate o) (children o).

Definition set_scale (s : Vector3.t) (o : Object3D) : Object3D :=
  mkObject3D (kind o) (visible o) (position o) (rotation o) s (matrix o)
    (matrixAutoUpdate o) (children o).

Definition set_matrix (m : Matrix4.t) (o : Object3D) : Object3D :=
  mkObject3D (kind o) (visible o) (position o) (rotation o) (scale o) m
    (matrixAutoUpdate o) (children o).

Definition set_matrixAutoUpdate (b : bool) (o : Object3D) : Object3D :=
  mkObject3D (kind o) (visible o) (position o) (rotation o) (scale o) (matrix o)
    b (children o).

Definition set_children (cs : list Ref) (o : Object3D) : Object3D :=
  mkObject3D (kind o) (visible o) (position o) (rotation o) (scale o) (matrix o)
    (matrixAutoUpdate o) cs.

(** The first occurrence of [r] leaves the array ([indexOf] and [splice]). *)
Fixpoint splice_out (r : Ref) (cs : list Ref) : list Ref :=
  match cs with
  | [] => []
  | c :: cs' => if decide (c = r) then cs' else c :: splice_out r cs'
  end.

(** ** Application state *)

(** The closure [step] that [popIn] hands to [requestAnimationFrame]: it
    captures [mesh] and [start] ([target.s] and [dur] are constants). *)
Record PopIn := mkPopIn { mesh : Ref; start : Q }.

(** The module-level variables [scene], [reticle] and [model], the objects
    they reach, and the callbacks waiting for the next animation frame. *)
Record App := mkApp {
  objects : gmap Ref Object3D;
  fresh : Ref;
  scene : Ref;
  reticle : Ref;
  model : option Ref;
  frameRequests : list PopIn
}.

Definition set_objects (os : gmap Ref Object3D) (st : App) : App :=
  mkApp os (fresh st) (scene st) (reticle st) (model st) (frameRequests st).

Definition set_model (m : option Ref) (st : App) : App :=
  mkApp (objects st) (fresh st) (scene st) (reticle st) m (frameRequests st).

Definition set_frameRequests (q : list PopIn) (st : App) : App :=
  mkApp (objects st) (fresh st) (scene st) (reticle st) (model st) q.

(** A mutation of the object [r]. *)
Definition update (r : Ref) (f : Object3D -> Object3D) (st : App) : App :=
  set_objects (alter f r (objects st)) st.

(** [new THREE.X(...)]: a new identity and its object. *)
Definition construct (o : Object3D) (st : App) : Ref * App :=
  (fresh st,
   mkApp (<[fresh st := o]> (objects st)) (S (fresh st)) (scene st) (reticle st)
     (model st) (frameRequests st)).

(** [parent.add(child)], for a child that has no parent yet (every object
    of the application is added once, right after it is constructed). *)
Definition add (parent child : Ref) (st : App) : App :=
  update parent (fun o => set_children (children o ++ [child]) o) st.

(** [parent.remove(child)]; nothing happens when [child] is not a child. *)
Definition remove (parent child : Ref) (st : App) : App :=
  update parent (fun o => set_children (splice_out child (children o)) o) st.

(** The children of the scene. *)
Definition scene_children (st : App) : list Ref :=
  match objects st !! scene st with
  | Some o => children o
  | None => []
  end.

Definition set_scene (r : Ref) (st : App) : App :=
  mkApp (objects st) (fresh st) r (reticle st) (model st) (frameRequests st).

Definition set_reticle (r : Ref) (st : App) : App :=
  mkApp (objects st) (fresh st) (scene st) r (model st) (frameRequests st).

(** ** WebXR: what one frame reports *)

(** [pose.transform.matrix]. *)
Record XRPose := mkXRPose { transform_matrix : list Q }.

(** [result.getPose(refSpace)]: a pose, or [null] when it cannot be resolved. *)
Record XRHitTestResult := mkXRHitTestResult { getPose : option XRPose }.

(** [frame.getHitTestResults(hitTestSource)]: an array, or a falsy value. *)
Record XRFrame := mkXRFrame { getHitTestResults : option (list XRHitTestResult) }.

(** ** replaceWithSkeleton *)

(** Lines 327-352: the three boxes, their positions, and the group. *)
Definition skeleton_group (parts : Parts) (st : App) : Ref * App :=
  let headBox := headBox parts in
  let bodyBox := bodyBox parts in
  let legsBox := legsBox parts in
  let scale := 0.001%Q in
  let '(head, st) :=
    construct (new_Object3D (Mesh
      (BoxGeometry (width headBox * scale) (height headBox * scale) 0.08)
      0xffe066)) st in
  let '(body, st) :=
    construct (new_Object3D (Mesh
      (BoxGeometry (width bodyBox * scale) (height bodyBox * scale) 0.1)
      0x66d9e8)) st in
  let '(legs, st) :=
    construct (new_Object3D (Mesh
      (BoxGeometry (width legsBox * scale) (height legsBox * scale) 0.12)
      0xb197fc)) st in
  let st := update head (set_position (Vector3.set
      0 ((height bodyBox * scale) / 2 + (height headBox * scale) / 2) 0)) st in
  let st := update body (set_position (Vector3.set 0 0 0)) st in
  let st := update legs (set_position (Vector3.set
      0 (- (height bodyBox * scale) / 2 - (height legsBox * scale) / 2) 0)) st in
  let '(group, st) := construct (new_Object3D Group) st in
  let st := add group head st in
  let st := add group body st in
  let st := add group legs st in
  (group, st).

(** Line 354: [if (model) scene.remove(model)]. *)
Definition detach_model (st : App) : App :=
  match model st with
  | Some m => remove (scene st) m st
  | None => st
  end.

(** Lines 355-357: [model = group; scene.add(model); model.visible = false]. *)
Definition attach_model (group : Ref) (st : App) : App :=
  let st := set_model (Some group) st in
  let st := add (scene st) group st in
  update group (set_visible false) st.

Definition replaceWithSkeleton (parts : Parts) (st : App) : App :=
  let '(group, st) := skeleton_group parts st in
  let st := detach_model st in
  attach_model group st.

(** ** initAR: the scene, and the model built from the drawing *)

(** Lines 141-164: scene, light, reticle and the stand-in box. *)
Definition setupScene : App :=
  let st := mkApp ∅ 0 0 0 None [] in
  let '(scene, st) := construct (new_Object3D Scene) st in
  let st := set_scene scene st in
  let '(hemi, st) := construct (new_Object3D (HemisphereLight 0xffffff 0xbbbbff 1)) st in
  let st := update hemi (set_position (Vector3.set 0.5 1 0.25)) st in
  let st := add scene hemi st in
  let '(reticle, st) :=
    construct (new_Object3D (Mesh (RingGeometry 0.08 0.11 32) 0xffffff)) st in
  let st := set_reticle reticle st in
  let st := update reticle (set_matrixAutoUpdate false) st in
  let st := update reticle (set_visible false) st in
  let st := add scene reticle st in
  let '(model, st) :=
    construct (new_Object3D (Mesh (BoxGeometry 0.2 0.2 0.2) 0xffffff)) st in
  let st := set_model (Some model) st in
  let st := update model (set_visible false) st in
  add scene model st.

(** Lines 132-177.  An exception of [processDrawingImage] is caught and the
    stand-in box is kept. *)
Definition initAR {image mat contour : Type} (cvReady : bool)
    (cv : OpenCV image mat contour) (uploadedImage : ImageElement image)
    (h : NativeHeap) : App * NativeHeap :=
  let st := setupScene in
  if cvReady then
    match processDrawingImage cv uploadedImage h with
    | (Normal (Some parts), h') => (replaceWithSkeleton parts st, h')
    | (Normal None, h') => (st, h')
    | (Throw _, h') => (st, h')
    end
  else (st, h).

(** ** The render loop (lines 190-204)

    The callback up to its last statement.  [renderer.render(scene, camera)]
    (line 203) draws the scene; before it draws, three.js recomputes the
    [matrix] of every object of the scene whose [matrixAutoUpdate] is true
    from its position, rotation and scale.  The application reads the
    [matrix] of the reticle only, which line 154 takes out of that
    recomputation, so the call is left out of the state: the [matrix] of
    every other object is not a value this file speaks about. *)

Definition animationLoop (frame : option XRFrame) (st : App) : App :=
  match frame with
  | Some frame =>
      match getHitTestResults frame with
      | Some (result0 :: _) =>
          match getPose result0 with
          | Some pose =>
              let st := update (reticle st) (set_visible true) st in
              update (reticle st)
                (set_matrix (Matrix4.fromArray (transform_matrix pose))) st
          | None => st
          end
      | Some [] | None => update (reticle st) (set_visible false) st
      end
  | None => st
  end.

(** ** popIn (lines 231-243) *)

Definition dur : Q := 220.
Definition target_s : Q := 1.

Definition requestAnimationFrame (a : PopIn) (st : App) : App :=
  set_frameRequests (frameRequests st ++ [a]) st.

(** The scale [step] computes at time [t]. *)
Definition step_scale (start t : Q) : Q :=
  let e := Js.Math_min 1 ((t - start) / dur) in
  let ease := (1 - Js.Math_pow (1 - e) 3)%Q in
  (0.001 + (target_s - 0.001) * ease)%Q.

(** Whether [step] asks for another frame at time [t]. *)
Definition step_again (start t : Q) : bool :=
  let e := Js.Math_min 1 ((t - start) / dur) in
  Js.lt e 1.

Definition step (a : PopIn) (t : Q) (st : App) : App :=
  let s := step_scale (start a) t in
  let st := update (mesh a) (set_scale (Vector3.set s s s)) st in
  if step_again (start a) t then requestAnimationFrame a st else st.

Definition popIn (mesh : Ref) (now : Q) (st : App) : App :=
  requestAnimationFrame (mkPopIn mesh now) st.

(** One animation frame of the browser at time [t]: the callbacks queued so
    far run in order; what they queue waits for the next frame. *)
Definition animationFrame (t : Q) (st : App) : App :=
  fold_left (fun st a => step a t st) (frameRequests st) (set_frameRequests [] st).

(** ** The click handler (lines 207-216) *)

Definition reticle_visible (st : App) : bool :=
  match objects st !! reticle st with
  | Some o => visible o
  | None => false
  end.

Definition reticle_matrix (st : App) : Matrix4.t :=
  match objects st !! reticle st with
  | Some o => matrix o
  | None => []
  end.

(** [random] is the value of [Math.random()] and [now] the value of
    [performance.now()], should the handler ask for them. *)
Definition click (random now : Q) (st : App) : App :=
  match model st with
  | Some m =>
      if reticle_visible st then
        let st := update m (set_visible true) st in
        let st := update m (set_position (Matrix4.position (reticle_matrix st))) st in
        let st := update m (set_rotation_y (random * Js.Math_PI * 2)) st in
        let st := update m (set_scale (Vector3.set 0.001 0.001 0.001)) st in
        popIn m now st
      else st
  | None => st
  end.

(** ** Sessions: the events that reach the application after [initAR] *)

Inductive Event :=
| XRFrameEvent (frame : option XRFrame)
| ClickEvent (random now : Q)
| AnimationFrameEvent (t : Q).

Definition dispatch (st : App) (ev : Event) : App :=
  match ev with
  | XRFrameEvent frame => animationLoop frame st
  | ClickEvent random now => click random now st
  | AnimationFrameEvent t => animationFrame t st
  end.

Definition run (evs : list Event) (st : App) : App := fold_left dispatch evs st.

(** ** The page: error banner, upload and start button (lines 66-127) *)

Module Page.

(** [errorMsgEl.textContent], whether [errorMsgEl] carries the class [show],
    the variable [uploadedImage], and [startARBtn.disabled]. *)
Record t (image : Type) := mk {
  errorText : string;
  errorShown : bool;
  uploadedImage : option (ImageElement image);
  startDisabled : bool
}.
Arguments mk {image} _ _ _ _.
Arguments errorText {image} _.
Arguments errorShown {image} _.
Arguments uploadedImage {image} _.
Arguments startDisabled {image} _.

(** The five messages of the page. *)
Definition load_failed : string :=
  "画像の読み込みに失敗しました。別のファイルでお試しください。".
Definition no_image : string := "画像をアップロードしてください。".
Definition no_webxr : string := "この端末/ブラウザは WebXR に対応していません。".
Definition no_immersive_ar : string :=
  "この端末/ブラウザは「immersive-ar」に対応していません。".
Definition init_failed : string :=
  "AR の初期化に失敗しました。HTTPS や対応端末をご確認ください。".

(** What the promise of [navigator.xr.isSessionSupported('immersive-ar')]
    settles to. *)
Inductive Support := Resolves (supported : bool) | Rejects.

(** [navigator.xr], when there is one, and its method [isSessionSupported],
    when it has one. *)
Record XRSystem := mkXRSystem { isSessionSupported : option Support }.
Record Navigator := mkNavigator { xr : option XRSystem }.

Section Handlers.

Context {image : Type}.

Definition showError (message : string) (p : t image) : t image :=
  mk message true (uploadedImage p) (startDisabled p).

Definition clearError (p : t image) : t image :=
  mk EmptyString false (uploadedImage p) (startDisabled p).

(** Lines 78-99, up to [img.src = imgURL]; [file] is
    [event.target.files && event.target.files[0]], a file or a falsy value.
    The load of a chosen file ends later, in [img_onload] or [img_onerror]. *)
Definition upload_change {file : Type} (file_ : option file) (p : t image) : t image :=
  let p := clearError p in
  match file_ with
  | None => mk (errorText p) (errorShown p) None true
  | Some _ => p
  end.

(** Lines 88-92. *)
Definition img_onload (img : ImageElement image) (p : t image) : t image :=
  mk (errorText p) (errorShown p) (Some img) false.

(** Lines 93-97. *)
Definition img_onerror (p : t image) : t image :=
  showError load_failed (mk (errorText p) (errorShown p) None true).

(** Lines 104-115: the click on the start button up to the [await]; the
    second component is the promise awaited, if the handler got that far. *)
Definition start_click (navigator : Navigator) (p : t image)
  : t image * option Support :=
  let p := clearError p in
  match uploadedImage p with
  | None => (showError no_image p, None)
  | Some _ =>
      match xr navigator with
      | None => (showError no_webxr p, None)
      | Some xr_ =>
          match isSessionSupported xr_ with
          | None => (showError no_webxr p, None)
          | Some answer => (p, Some answer)
          end
      end
  end.

(** [initAR] as the start handler calls it: with the [uploadedImage] of the
    moment.  Without an image, [processDrawingImage] throws on
    [imageElement.width] before any OpenCV call, which [initAR] catches. *)
Definition initAR_of {mat contour : Type} (cvReady : bool)
    (cv : OpenCV image mat contour) (img : option (ImageElement image))
    (h : NativeHeap) : App * NativeHeap :=
  match img with
  | Some img => initAR cvReady cv img h
  | None => (setupScene, h)
  end.

(** Lines 115-126: the handler from the settled promise on.  [granted]
    tells whether the session, its reference spaces and its hit-test source
    are obtained (lines 180-187); the result holds the running application
    if they are. *)
Definition start_resume {mat contour : Type} (answer : Support) (cvReady : bool)
    (cv : OpenCV image mat contour) (granted : bool) (h : NativeHeap)
    (p : t image) : t image * option App * NativeHeap :=
  let supported := match answer with Resolves b => b | Rejects => false end in
  if negb supported then (showError no_immersive_ar p, None, h)
  else
    let '(app, h') := initAR_of cvReady cv (uploadedImage p) h in
    if granted then (p, Some app, h')
    else (showError init_failed p, None, h').

(** The whole handler, when nothing happens on the page while it waits. *)
Definition start {mat contour : Type} (navigator : Navigator) (cvReady : bool)
    (cv : OpenCV image mat contour) (granted : bool) (h : NativeHeap)
    (p : t image) : t image * option App * NativeHeap :=
  match start_click navigator p with
  | (p, None) => (p, None, h)
  | (p, Some answer) => start_resume answer cvReady cv granted h p
  end.

(** The button is disabled exactly when no image is held, and the banner is
    shown exactly when it has a text. *)
Definition consistent (p : t image) : Prop :=
  (startDisabled p = true <-> uploadedImage p = None) /\
  (errorShown p = true <-> errorText p <> EmptyString).

(** What can happen on the page, in any order: a change of the file input
    (with a file or without), the end of a load, a click on the start
    button, and the rest of the start handler once its promise is settled. *)
Inductive Event :=
| UploadChange (file_ : option unit)
| ImgLoad (img : ImageElement image)
| ImgError
| StartClick (navigator : Navigator)
| StartResume (answer : Support) (granted : bool).

Definition dispatch {mat contour : Type} (cvReady : bool)
    (cv : OpenCV image mat contour) (h : NativeHeap)
    (p : t image) (ev : Event) : t image :=
  match ev with
  | UploadChange file_ => upload_change file_ p
  | ImgLoad img => img_onload img p
  | ImgError => img_onerror p
  | StartClick navigator => (start_click navigator p).1
  | StartResume answer granted => (start_resume answer cvReady cv granted h p).1.1
  end.

Definition run {mat contour : Type} (cvReady : bool)
    (cv : OpenCV image mat contour) (h : NativeHeap)
    (evs : list Event) (p : t image) : t image :=
  fold_left (dispatch cvReady cv h) evs p.

End Handlers.

End Page.

(** ** waitForOpenCVReady (lines 30-61) *)

Module OpenCvReady.

(** What the script sees of the global [cv] at one moment:
    [typeof cv === 'undefined'] (not declared, or holding [undefined]),
    another falsy value, truthy without [cv.Mat], or with [cv.Mat]. *)
Inductive CvGlobal := Undeclared | Falsy | Loading | Loaded.

(** How the promise ends within the moments observed: resolved (at the call
    itself, at the given poll, or by the runtime's hook), rejected, or still
    pending. *)
Inductive Outcome :=
| ResolvedAtCall
| ResolvedAtPoll (n : nat)
| ResolvedByHook
| Rejected
| Pending.

(** [tick] of lines 34-40: first at the call, then every 50 ms; [polls]
    lists what each run finds, [n] counts the runs before. *)
Fixpoint tick (n : nat) (polls : list CvGlobal) : Outcome :=
  match polls with
  | [] => Pending
  | Loaded :: _ => ResolvedAtPoll n
  | _ :: later => tick (S n) later
  end.

(** The executor of lines 33-51.  [now] is what the call finds, [polls]
    what the later polls find, [hook_called] whether the runtime calls
    [cv.onRuntimeInitialized].  Assigning the hook to a falsy [cv] throws
    (module code is strict), which rejects the promise. *)
Definition waitForOpenCVReady (now : CvGlobal) (polls : list CvGlobal)
    (hook_called : bool) : Outcome :=
  match now with
  | Loaded => ResolvedAtCall
  | Loading => if hook_called then ResolvedByHook else Pending
  | Falsy => Rejected
  | Undeclared => tick 0 (now :: polls)
  end.

(** Lines 54-61: the value of [cvReady] once the promise has settled
    (it is [false] until then). *)
Definition cvReady (o : Outcome) : bool :=
  match o with
  | ResolvedAtCall | ResolvedAtPoll _ | ResolvedByHook => true
  | Rejected | Pending => false
  end.

End OpenCvReady.

(** ** Renderer and camera (lines 134-142, 222-227) *)

Module Viewport.

(** [renderer.getPixelRatio()] and the size given to [renderer.setSize]. *)
Record Renderer := mkRenderer { pixelRatio : Q; width : Q; height : Q }.

(** [camera.aspect]; field of view and clipping planes are constants. *)
Record Camera := mkCamera { aspect : Q }.

(** The variables [renderer] and [camera], undefined before [initAR]. *)
Record t := mk { renderer : option Renderer; camera : option Camera }.

(** Before [initAR]. *)
Definition undefined : t := mk None None.

(** Lines 134-142; [devicePixelRatio] is [window.devicePixelRatio], which
    may be undefined.  (The quotient is the one the code forms; by zero it
    is 0 here, not an infinity.) *)
Definition initAR (devicePixelRatio : option Q) (innerWidth innerHeight : Q) : t :=
  let pr := Js.Math_min (default 1%Q devicePixelRatio) 2 in
  mk (Some (mkRenderer pr innerWidth innerHeight))
     (Some (mkCamera (innerWidth / innerHeight))).

(** Lines 222-227. *)
Definition onWindowResize (innerWidth innerHeight : Q) (v : t) : t :=
  match renderer v, camera v with
  | Some r, Some c =>
      mk (Some (mkRenderer (pixelRatio r) innerWidth innerHeight))
         (Some (mkCamera (innerWidth / innerHeight)))
  | _, _ => v
  end.

(** A run of resize events, each with the new inner width and height. *)
Definition resizes (sizes : list (Q * Q)) (v : t) : t :=
  fold_left (fun v size => onWindowResize size.1 size.2 v) sizes v.

End Viewport.

(** ** The earlier draft (second source file)

    Line numbers in this module refer to that file. *)

Module Draft.

(** What [frame] gives the render callback of lines 86-102: a viewer pose
    or [null], and the array of hit-test results. *)
Record Frame := mkFrame {
  getViewerPose : option unit;
  hitTestResults : list XRHitTestResult
}.

(** How the callback ends: after [renderer.render], or with the TypeError
    of reading [hitPose.transform] from [null]. *)
Inductive Ended := Rendered | TypeError.

(** Lines 45-68: scene, light, reticle and the box. *)
Definition setupScene : App :=
  let st := mkApp ∅ 0 0 0 None [] in
  let '(scene, st) := construct (new_Object3D Scene) st in
  let st := set_scene scene st in
  let '(light, st) := construct (new_Object3D (HemisphereLight 0xffffff 0xbbbbff 1)) st in
  let st := update light (set_position (Vector3.set 0.5 1 0.25)) st in
  let st := add scene light st in
  let '(reticle, st) :=
    construct (new_Object3D (Mesh (RingGeometry 0.1 0.15 32) 0x00ff00)) st in
  let st := set_reticle reticle st in
  let st := update reticle (set_matrixAutoUpdate false) st in
  let st := update reticle (set_visible false) st in
  let st := add scene reticle st in
  let '(model, st) :=
    construct (new_Object3D (Mesh (BoxGeometry 0.2 0.2 0.2) 0xff0000)) st in
  let st := set_model (Some model) st in
  let st := update model (set_visible false) st in
  add scene model st.

(** Lines 86-102. *)
Definition animationLoop (frame : option Frame) (st : App) : App * Ended :=
  match frame with
  | Some frame =>
      match getViewerPose frame with
      | Some _ =>
          match hitTestResults frame with
          | hit :: _ =>
              let hitPose := getPose hit in
              let st := update (reticle st) (set_visible true) st in
              match hitPose with
              | Some hitPose =>
                  (update (reticle st)
                     (set_matrix (Matrix4.fromArray (transform_matrix hitPose))) st,
                   Rendered)
              | None => (st, TypeError)
              end
          | [] => (update (reticle st) (set_visible false) st, Rendered)
          end
      | None => (st, Rendered)
      end
  | None => (st, Rendered)
  end.

(** Lines 105-113. *)
Definition click (random : Q) (st : App) : App :=
  match model st with
  | Some m =>
      if reticle_visible st then
        let st := update m (set_visible true) st in
        let st := update m (set_position (Matrix4.position (reticle_matrix st))) st in
        let st := update m (set_scale (Vector3.set 0.2 0.2 0.2)) st in
        update m (set_rotation_y (random * Js.Math_PI * 2)) st
      else st
  | None => st
  end.

(** Lines 206-239. *)
Definition createSkeletonModel (headBox bodyBox legsBox : Rect) (imgW imgH : Q)
    (st : App) : App :=
  let scale := 0.001%Q in
  let headGeom := BoxGeometry (width headBox * scale) (height headBox * scale) 0.1 in
  let bodyGeom := BoxGeometry (width bodyBox * scale) (height bodyBox * scale) 0.1 in
  let legsGeom := BoxGeometry (width legsBox * scale) (height legsBox * scale) 0.1 in
  let '(headMesh, st) := construct (new_Object3D (Mesh headGeom 0xffff00)) st in
  let '(bodyMesh, st) := construct (new_Object3D (Mesh bodyGeom 0xff00ff)) st in
  let '(legsMesh, st) := construct (new_Object3D (Mesh legsGeom 0x00ffff)) st in
  let st := update headMesh (set_position (Vector3.set
      0 ((height bodyBox * scale) / 2 + (height headBox * scale) / 2) 0)) st in
  let st := update bodyMesh (set_position (Vector3.set 0 0 0)) st in
  let st := update legsMesh (set_position (Vector3.set
      0 (- (height bodyBox * scale) / 2 - (height legsBox * scale) / 2) 0)) st in
  let st := match model st with
            | Some m => remove (scene st) m st
            | None => st
            end in
  let '(group, st) := construct (new_Object3D Group) st in
  let st := add group headMesh st in
  let st := add group bodyMesh st in
  let st := add group legsMesh st in
  let st := set_model (Some group) st in
  let st := add (scene st) group st in
  update group (set_visible false) st.

Section ProcessDrawingImage.

Context {image mat contour : Type} (cv : OpenCV image mat contour).

(** The contours of lines 131-142: no blur and no closing. *)
Definition outer_boundaries (imageElement : ImageElement image) : list contour :=
  cv_findContours cv
    (cv_threshold cv
       (cv_cvtColor cv
          (cv_matFromImageData cv (pixels imageElement)))).

(** Lines 121-203.  The function returns nothing; it builds the rig itself,
    after the last call that can throw and before the deletions.  The
    handles of [contours.get(i)] (line 150) are deleted nowhere. *)
Definition processDrawingImage (imageElement : ImageElement image) (st : App)
  : Cv App :=
  (let canvas_width := img_width imageElement in
   let canvas_height := img_height imageElement in
   let* imageData := canvas_imageData cv imageElement in
   let* src_ := alloc cv matFromImageData src (cv_matFromImageData cv imageData) in
   alloc cv new_Mat_gray gray () ;;;
   let* gray_ := call cv cvtColor (cv_cvtColor cv src_) in
   alloc cv new_Mat_binary binary () ;;;
   let* binary_ := call cv threshold (cv_threshold cv gray_) in
   alloc cv new_MatVector contours () ;;;
   alloc cv new_Mat_hierarchy hierarchy () ;;;
   let* contours_ := call cv findContours (cv_findContours cv binary_) in
   let* maxContour := scan cv contours_ 0 0 None in
   let* st :=
     match maxContour with
     | Some c =>
         let* rect := call cv boundingRect (cv_boundingRect cv c) in
         let parts := partition rect canvas_width canvas_height in
         cv_ret (createSkeletonModel (headBox parts) (bodyBox parts) (legsBox parts)
                   canvas_width canvas_height st)
     | None => cv_ret st
     end in
   delete src ;;; delete gray ;;; delete binary ;;;
   delete contours ;;; delete hierarchy ;;;
   cv_ret st)%cv.

End ProcessDrawingImage.

(** The buffers bound to local variables when the draft reaches the step
    [c], most recent first; it never makes the calls of blurring and
    closing. *)
Definition allocated_before (c : CvCall) : NativeHeap :=
  match c with
  | getImageData | matFromImageData => []
  | new_Mat_gray => [src]
  | cvtColor | new_Mat_binary => [gray; src]
  | threshold | new_MatVector => [binary; gray; src]
  | new_Mat_hierarchy => [contours; binary; gray; src]
  | findContours | MatVector_get | contourArea | boundingRect =>
      [hierarchy; contours; binary; gray; src]
  | new_Mat_blur | GaussianBlur | Mat_ones | morphologyEx => []
  end.

End Draft.

(** ** An instance of the OpenCV capability on polygons

    For evaluating the pipeline on concrete drawings.  An image is given by
    the outer boundaries that the stages of lines 258-277 yield for it,
    each a closed polygon of pixel coordinates, so the stages themselves
    are the identity here; each image below says which pixels it stands
    for.  The area is Green's formula (as [cv.contourArea] with
    [oriented = false]) and the bounding rectangle covers the pixels from the
    least to the greatest coordinate (as [cv.boundingRect]). *)

Module Polygons.

Definition point : Type := Z * Z.
Definition contour : Type := list point.
Definition image : Type := list contour.

Definition cross (p q : point) : Z := (fst p * snd q - fst q * snd p)%Z.

Fixpoint shoelace (first : point) (ps : list point) : Z :=
  match ps with
  | [] => 0
  | p :: rest =>
      match rest with
      | [] => cross p first
      | q :: _ => cross p q + shoelace first rest
      end
  end%Z.

Definition area (c : contour) : Q :=
  match c with
  | [] => 0
  | first :: _ => inject_Z (Z.abs (shoelace first c)) / 2
  end.

Definition least (zs : list Z) (d : Z) : Z := foldr Z.min d zs.
Definition greatest (zs : list Z) (d : Z) : Z := foldr Z.max d zs.

Definition bounds (c : contour) : Rect :=
  match c with
  | [] => mkRect 0 0 0 0
  | (x0, y0) :: _ =>
      let xmin := least (map fst c) x0 in
      let ymin := least (map snd c) y0 in
      let xmax := greatest (map fst c) x0 in
      let ymax := greatest (map snd c) y0 in
      mkRect (inject_Z xmin) (inject_Z ymin)
             (inject_Z (xmax - xmin + 1)) (inject_Z (ymax - ymin + 1))
  end.

Definition cv (throws : CvCall -> bool) : OpenCV image image contour :=
  {| cv_matFromImageData := id;
     cv_cvtColor := id;
     cv_GaussianBlur := id;
     cv_threshold := id;
     cv_morphologyEx := id;
     cv_findContours := id;
     cv_contourArea := area;
     cv_boundingRect := bounds;
     cv_throws := throws |}.

(** No call throws. *)
Definition quiet : CvCall -> bool := fun _ => false.

(** Exactly the call [c] throws. *)
Definition failing (c : CvCall) : CvCall -> bool :=
  fun c' => bool_decide (c' = c).

(** A 400 x 800 image whose drawing covers the pixels (50,50)-(349,749). *)
Definition blob : ImageElement image :=
  mkImage [[(50, 50); (50, 749); (349, 749); (349, 50)]%Z] 400 800.

(** A 400 x 800 image with nothing drawn. *)
Definition blank : ImageElement image := mkImage [] 400 800.

(** An image one pixel wide and 800 high, black all over.  Every stage
    leaves it uniform; Otsu's threshold of a uniform image is 0 and the
    inverted binarisation makes every pixel foreground, so the one outer
    boundary runs down the column and back and is stored by its two end
    points. *)
Definition line : ImageElement image := mkImage [[(0, 0); (0, 799)]%Z] 1 800.

End Polygons.

(** ** Vocabulary of the statements *)

(** [mesh.geometry.parameters.height]: the height a box was built with. *)
Definition world_height (o : Object3D) : Q :=
  match kind o with
  | Mesh (BoxGeometry _ h _) _ => h
  | _ => 0
  end.

(** The buffers bound to local variables when the step [c] is reached, most
    recent first. *)
Definition allocated_before (c : CvCall) : NativeHeap :=
  match c with
  | getImageData | matFromImageData => []
  | new_Mat_gray => [src]
  | cvtColor | new_Mat_blur => [gray; src]
  | GaussianBlur | new_Mat_binary => [blur; gray; src]
  | threshold | Mat_ones => [binary; blur; gray; src]
  | morphologyEx | new_MatVector => [kernel; binary; blur; gray; src]
  | new_Mat_hierarchy => [contours; kernel; binary; blur; gray; src]
  | findContours | MatVector_get | contourArea | boundingRect =>
      [hierarchy; contours; kernel; binary; blur; gray; src]
  end.

(** The image has a width and a height other than zero. *)
Definition sized {image : Type} (imageElement : ImageElement image) : Prop :=
  ~ (img_width imageElement == 0)%Q /\ ~ (img_height imageElement == 0)%Q.

(** The handles of the contours of index [i] to [i + n - 1], most recent
    first, and those of the first [n] contours. *)
Definition handles_from (i n : nat) : NativeHeap := reverse (contour_at <$> seq i n).
Definition contour_handles (n : nat) : NativeHeap := handles_from 0 n.

(** The three solids of the rig [model] points at: the children of the
    group, in the order they were added. *)
Definition rig_of (st : App) : option (Object3D * Object3D * Object3D) :=
  m ← model st;
  og ← objects st !! m;
  match children og with
  | [head; body; legs] =>
      oh ← objects st !! head;
      ob ← objects st !! body;
      ol ← objects st !! legs;
      Some (oh, ob, ol)
  | _ => None
  end.

(** The object [model] points at. *)
Definition model_object (st : App) : option Object3D :=
  m ← model st; objects st !! m.

(** The scene is older than every identity still to be handed out, and
    holds each of its children once. *)
Definition scene_well_formed (st : App) : Prop :=
  scene st < fresh st /\
  NoDup (scene_children st) /\
  Forall (fun r => r < fresh st) (scene_children st).

(** A state of a session: the scene holds the light, the reticle and the
    one object [model] points at, in this order. *)
Definition session_state (st : App) : Prop :=
  scene st = 0 /\ reticle st = 2 /\
  is_Some (objects st !! reticle st) /\
  exists m, model st = Some m /\ 2 < m < fresh st /\
            is_Some (objects st !! m) /\
            scene_children st = [1; 2; m].

(** [mesh.geometry.parameters.width]. *)
Definition world_width (o : Object3D) : Q :=
  match kind o with
  | Mesh (BoxGeometry w _ _) _ => w
  | _ => 0
  end.

(** [inner] lies within [outer]. *)
Definition Rect_inside (inner outer : Rect) : Prop :=
  (x outer <= x inner /\ x inner + width inner <= x outer + width outer /\
   y outer <= y inner /\ y inner + height inner <= y outer + height outer)%Q.

(** The stand-in box of lines 159-162. *)
Definition stand_in : Kind := Mesh (BoxGeometry 0.2 0.2 0.2) 0xffffff.

(** [st'] differs from [st] at most in the fields of the object [r] that
    [keep] lets vary: [keep o o'] says that [o'] is [o] up to those fields. *)
Definition only_object (r : Ref) (keep : Object3D -> Object3D -> Prop)
    (st st' : App) : Prop :=
  scene st' = scene st /\ reticle st' = reticle st /\ model st' = model st /\
  fresh st' = fresh st /\
  (forall k, k <> r -> objects st' !! k = objects st !! k) /\
  (forall o, objects st !! r = Some o ->
     exists o', objects st' !! r = Some o' /\ keep o o') /\
  (objects st !! r = None -> objects st' !! r = None).

(** The same up to [visible] and [matrix]. *)
Definition up_to_visible_matrix (o o' : Object3D) : Prop :=
  set_matrix (matrix o) (set_visible (visible o) o') = o.

(** The same up to [visible], [position], [rotation.y] and [scale]. *)
Definition up_to_placement (o o' : Object3D) : Prop :=
  set_scale (scale o)
    (set_rotation_y (Vector3.y (rotation o))
       (set_position (position o) (set_visible (visible o) o'))) = o.

(** The same up to [scale]. *)
Definition up_to_scale (o o' : Object3D) : Prop := set_scale (scale o) o' = o.

(** Every object of [st'] is the object of [st] up to its scale, and the
    variables are the same. *)
Definition only_scales (st st' : App) : Prop :=
  scene st' = scene st /\ reticle st' = reticle st /\ model st' = model st /\
  fresh st' = fresh st /\
  forall k, match objects st !! k, objects st' !! k with
            | Some o, Some o' => up_to_scale o o'
            | None, None => True
            | _, _ => False
            end.

(** The scene after the draft's function, and after [replaceWithSkeleton]. *)
Definition scene_after (st : App) (o : Object3D) : Object3D :=
  set_children
    (match model st with
     | Some m => splice_out m (children o)
     | None => children o
     end ++ [fresh st + 3]) o.

(** The box a solid shows to the viewer and where it sits. *)
Definition face (o : Object3D) : Vector3.t * Q * Q :=
  (position o, world_width o, world_height o).

(** ** The arithmetic in binary64 *)

Module Binary64.

(** [Math.min(a, b)] away from NaN. *)
Definition Math_min (a b : float) : float := if (a <? b)%float then a else b.

(** [Math.PI]. *)
Definition Math_PI : float := 0x1.921fb54442d18p+1%float.

(** The twelve fields of lines 294-311, head, body, legs. *)
Definition partition_fields (x y width height : float) : list float :=
  [ x + width * 0.25; y; width * 0.5; height * 0.2;
    x + width * 0.2; y + height * 0.2; width * 0.6; height * 0.4;
    x + width * 0.2; y + height * 0.6; width * 0.6; height * 0.4 ]%float.

(** Lines 345 and 347: the heights of head and legs above the body's centre. *)
Definition head_y (bodyBox_height headBox_height : float) : float :=
  ((bodyBox_height * 0.001) / 2 + (headBox_height * 0.001) / 2)%float.
Definition legs_y (bodyBox_height legsBox_height : float) : float :=
  (- (bodyBox_height * 0.001) / 2 - (legsBox_height * 0.001) / 2)%float.

(** Line 211. *)
Definition yaw (random : float) : float := (random * Math_PI * 2)%float.

(** Lines 236-238; [Math.pow(b, 3)] is the correctly rounded cube on the
    values below. *)
Definition step_scale (start t : float) : float :=
  let e := Math_min 1 ((t - start) / 220)%float in
  let ease := (1 - (1 - e) * (1 - e) * (1 - e))%float in
  (0.001 + (1 - 0.001) * ease)%float.

End Binary64.

(** ** Proof tactics *)

(** Lookups in a store built by insertions and alterations at identities
    that differ by arithmetic. *)
Ltac store :=
  repeat first
    [ rewrite lookup_alter_eq
    | rewrite lookup_insert_eq
    | rewrite lookup_alter_ne by lia
    | rewrite lookup_insert_ne by lia ];
  cbn [fmap option_fmap option_map].

(** Case analysis on each step before the loop: if it throws, the goal is
    the statement about that exception, with no handle obtained yet. *)
Ltac steps_before_loop cv :=
  repeat match goal with
  | |- context [cv_throws cv ?c0] =>
      lazymatch c0 with
      | boundingRect => fail
      | _ =>
        destruct (cv_throws cv c0) eqn:?; cbn -[release contour_handles];
        [split; [by left |]; exists 0; split; [lia | reflexivity] |]
      end
  end.

(** ** A session to evaluate on *)

Module Scenario.

(** The parts of the 300 x 700 rectangle at (50, 50). *)
Definition parts : Parts := partition (mkRect 50 50 300 700) 400 800.

(** A pose one unit to the right of the origin and two units in front. *)
Definition pose : XRPose :=
  mkXRPose [1; 0; 0; 0;  0; 1; 0; 0;  0; 0; 1; 0;  1; 0; -2; 1]%Q.

(** A frame with one hit that resolves, one without hits, and one whose
    only hit does not resolve. *)
Definition hit : XRFrame := mkXRFrame (Some [mkXRHitTestResult (Some pose)]).
Definition miss : XRFrame := mkXRFrame (Some []).
Definition unresolved : XRFrame := mkXRFrame (Some [mkXRHitTestResult None]).

(** The session of the blob: after [initAR], after a frame with a hit, and
    after a click at time 1000 for which [Math.random] returned 1/2. *)
Definition started : App :=
  (initAR true (Polygons.cv Polygons.quiet) Polygons.blob []).1.
Definition aimed : App := animationLoop (Some hit) started.
Definition placed : App := click (1 # 2) 1000 aimed.

(** The group of the rig as [initAR] leaves it (object 7), and as the click
    leaves it. *)
Definition group_started : Object3D :=
  set_visible false (set_children [4; 5; 6] (new_Object3D Group)).
Definition group_placed : Object3D :=
  set_scale (Vector3.set 0.001 0.001 0.001)
    (set_rotation_y ((1 # 2) * Js.Math_PI * 2)
       (set_position (Matrix4.position (transform_matrix pose))
          (set_visible true group_started))).

End Scenario.

(** * Properties *)

(** ** Contour selection *)

Lemma gt_true (a b : Q) : Js.gt a b = true <-> (b < a)%Q.
Proof.
  unfold Js.gt. rewrite negb_true_iff, <- not_true_iff_false, Qle_bool_iff.
  split; [apply Qnot_le_lt | apply Qlt_not_le].
Qed.

Lemma gt_false (a b : Q) : Js.gt a b = false <-> (a <= b)%Q.
Proof. unfold Js.gt. rewrite negb_false_iff. apply Qle_bool_iff. Qed.

Lemma lt_true (a b : Q) : Js.lt a b = true <-> (a < b)%Q.
Proof. apply gt_true. Qed.

Lemma lt_false (a b : Q) : Js.lt a b = false <-> (b <= a)%Q.
Proof. apply gt_false. Qed.

Section Selection.

Context {image mat contour : Type} (cv : OpenCV image mat contour).

Lemma handles_from_S (i n : nat) (h : NativeHeap) :
  handles_from i (S n) ++ h = handles_from (S i) n ++ contour_at i :: h.
Proof.
  unfold handles_from. cbn [seq fmap list_fmap]. rewrite reverse_cons.
  by rewrite <- app_assoc.
Qed.

(** One more element of [cs] keeps the selection of the rest. *)
Lemma scan_result_cons (c : contour) (rest : list contour) (maxArea : Q)
    (maxContour r : option contour) :
  scan_result cv rest
    (if Js.gt (cv_contourArea cv c) maxArea then cv_contourArea cv c else maxArea)
    (if Js.gt (cv_contourArea cv c) maxArea then Some c else maxContour) r ->
  scan_result cv (c :: rest) maxArea maxContour r.
Proof.
  destruct (Js.gt (cv_contourArea cv c) maxArea) eqn:Hgt.
  - apply gt_true in Hgt.
    intros [[-> Hall] | (c' & -> & pre & post & -> & Hlt & Hpre & Hpost)]; right.
    + exists c. split; [reflexivity |]. exists [], rest. repeat split; auto.
    + exists c'. split; [reflexivity |]. exists (c :: pre), post.
      repeat split; auto. eapply Qlt_trans; eassumption.
  - apply gt_false in Hgt.
    intros [[-> Hall] | (c' & -> & pre & post & -> & Hlt & Hpre & Hpost)].
    + left. split; [reflexivity | constructor; assumption].
    + right. exists c'. split; [reflexivity |]. exists (c :: pre), post.
      repeat split; auto.
      constructor; [| assumption]. eapply Qle_lt_trans; eassumption.
Qed.

(** The loop, whatever OpenCV does.  When it ends, it has selected as
    [scan_result] says and one handle per contour is on the heap; when a
    call throws, the handles obtained so far are. *)
Lemma scan_outcome (cs : list contour) :
  forall i maxArea maxContour h,
    match scan cv cs i maxArea maxContour h with
    | (Normal r, h') =>
        scan_result cv cs maxArea maxContour r /\
        h' = handles_from i (length cs) ++ h
    | (Throw c, h') =>
        cv_throws cv c = true /\
        (c = MatVector_get \/ c = contourArea) /\
        exists k, k <= length cs /\ h' = handles_from i k ++ h
    end.
Proof.
  induction cs as [|c rest IH]; intros i maxArea maxContour h.
  - cbn. split; [| reflexivity]. left. split; [reflexivity | constructor].
  - cbn [scan length]. unfold cv_bind, alloc, call.
    destruct (cv_throws cv MatVector_get) eqn:Hget.
    { split; [exact Hget |]. split; [by left |]. exists 0. split; [lia | reflexivity]. }
    destruct (cv_throws cv contourArea) eqn:Harea.
    { split; [exact Harea |]. split; [by right |]. exists 1. split; [lia | reflexivity]. }
    specialize (IH (S i)
      (if Js.gt (cv_contourArea cv c) maxArea then cv_contourArea cv c else maxArea)
      (if Js.gt (cv_contourArea cv c) maxArea then Some c else maxContour)
      (contour_at i :: h)).
    pose proof (scan_result_cons c rest maxArea maxContour) as Hcons.
    destruct (Js.gt (cv_contourArea cv c) maxArea);
      destruct (scan cv rest (S i) _ _ (contour_at i :: h)) as [[r|c'] h'].
    all: try (destruct IH as [Hsel ->]; split; [by apply Hcons | by rewrite handles_from_S]).
    all: destruct IH as (Hc' & Hwhich & k & Hk & ->); split; [exact Hc' |];
      split; [exact Hwhich |];
      exists (S k); split; [lia | by rewrite handles_from_S].
Qed.

Lemma release_app (b : Buffer) (hs h : NativeHeap) :
  Forall (fun b' => b' <> b) hs -> release b (hs ++ h) = hs ++ release b h.
Proof.
  induction 1 as [|b' hs Hb' _ IH]; [reflexivity |].
  cbn. case_decide; [done | by rewrite IH].
Qed.

(** A buffer bound to a variable is released from under the handles. *)
Lemma release_handles (b : Buffer) (i n : nat) (h : NativeHeap) :
  (forall j, contour_at j <> b) ->
  release b (handles_from i n ++ h) = handles_from i n ++ release b h.
Proof.
  intros Hb. apply release_app. unfold handles_from.
  rewrite Forall_reverse, Forall_fmap. apply Forall_forall. intros j _. apply Hb.
Qed.

(** The seven deletions of lines 317-318 undo the seven allocations of lines
    258-276 and leave the handles. *)
Lemma release_all (n : nat) (h : NativeHeap) :
  release hierarchy (release contours (release kernel (release binary
    (release blur (release gray (release src
      (contour_handles n ++
       hierarchy :: contours :: kernel :: binary :: blur :: gray :: src :: h)))))))
  = contour_handles n ++ h.
Proof. unfold contour_handles. by rewrite !release_handles by discriminate. Qed.

(** [processDrawingImage], whatever the browser and OpenCV do.  When it
    returns, the result is the parts of the loop's selection, the seven
    buffers bound to variables are released and one handle per contour is
    left on the heap.  When it throws, the step that threw is one that
    failed in this run, and the heap holds, on top of what it held, every
    buffer bound so far and the handles obtained so far. *)
Lemma processDrawingImage_outcome (imageElement : ImageElement image)
    (h : NativeHeap) :
  let found := outer_boundaries cv imageElement in
  match processDrawingImage cv imageElement h with
  | (Normal result, h') =>
      sized imageElement /\
      (exists sel, scan_result cv found 0 None sel /\
                   result = parts_of cv imageElement sel) /\
      h' = contour_handles (length found) ++ h
  | (Throw c, h') =>
      (cv_throws cv c = true \/ (c = getImageData /\ ~ sized imageElement)) /\
      exists k, k <= length found /\
                h' = contour_handles k ++ allocated_before c ++ h
  end.
Proof.
  intros found. unfold processDrawingImage, canvas_imageData.
  unfold cv_bind at 1.
  destruct (Qeq_bool (img_width imageElement) 0) eqn:Hw.
  { cbn. split; [| exists 0; split; [lia | reflexivity]].
    right. split; [reflexivity |]. intros [Hnw _]. by apply Hnw, Qeq_bool_iff. }
  destruct (Qeq_bool (img_height imageElement) 0) eqn:Hh.
  { cbn. split; [| exists 0; split; [lia | reflexivity]].
    right. split; [reflexivity |]. intros [_ Hnh]. by apply Hnh, Qeq_bool_iff. }
  assert (Hsized : sized imageElement).
  { split; intros E; apply Qeq_bool_iff in E; congruence. }
  cbn [orb].
  unfold cv_bind, alloc, call, delete, cv_ret.
  steps_before_loop cv.
  fold found.
  pose proof (scan_outcome found 0 0%Q None
    (hierarchy :: contours :: kernel :: binary :: blur :: gray :: src :: h)) as Hscan.
  unfold found, outer_boundaries in Hscan |- *.
  match goal with
  | |- context [scan cv ?cs ?i ?a ?m ?hp] =>
      destruct (scan cv cs i a m hp) as [[[c1|]|c1] hs]
  end; cbn -[release contour_handles].
  - destruct Hscan as [Hsel ->]. fold (contour_handles (length found)).
    destruct (cv_throws cv boundingRect) eqn:Hb; cbn -[release contour_handles].
    + split; [by left |]. exists (length found). split; [apply le_n | reflexivity].
    + split; [exact Hsized |]. split; [by exists (Some c1) |].
      apply release_all.
  - destruct Hscan as [Hsel ->]. fold (contour_handles (length found)).
    split; [exact Hsized |]. split; [by exists None |]. apply release_all.
  - destruct Hscan as (Hc1 & Hwhich & k & Hk & ->).
    split; [by left |]. exists k. split; [exact Hk |].
    by destruct Hwhich as [-> | ->].
Qed.

(** A call on an image of non-zero size in which no step throws returns
    the parts of the loop's selection. *)
Lemma processDrawingImage_quiet (imageElement : ImageElement image) (h : NativeHeap) :
  sized imageElement ->
  (forall c, cv_throws cv c = false) ->
  let found := outer_boundaries cv imageElement in
  exists sel,
    processDrawingImage cv imageElement h =
      (Normal (parts_of cv imageElement sel), contour_handles (length found) ++ h) /\
    scan_result cv found 0 None sel.
Proof.
  intros Hsized Hq found.
  pose proof (processDrawingImage_outcome imageElement h) as H. cbv zeta in H.
  destruct (processDrawingImage cv imageElement h) as [[result|c] h'].
  - destruct H as (_ & (sel & Hsel & ->) & ->). by exists sel.
  - destruct H as ([Hc | [_ Hns]] & _); [by rewrite Hq in Hc | by destruct Hns].
Qed.

End Selection.

(** ** The box partition *)

(** C1.  For a bounding rectangle of width [W > 0] and height [H > 0] the
    partition is: HEAD at [x + W/4], [y], of size [W/2] by [H/5]; BODY at
    [x + W/5], [y + H/5], of size [3W/5] by [2H/5]; LEGS at [x + W/5],
    [y + 3H/5], of size [3W/5] by [2H/5]. *)
Theorem partition_boxes (rect : Rect) (canvas_width canvas_height : Q) :
  (0 < width rect)%Q -> (0 < height rect)%Q ->
  let W := width rect in
  let H := height rect in
  let parts := partition rect canvas_width canvas_height in
  Rect_eq (headBox parts)
    (mkRect (x rect + (1 # 4) * W) (y rect) ((1 # 2) * W) ((1 # 5) * H)) /\
  Rect_eq (bodyBox parts)
    (mkRect (x rect + (1 # 5) * W) (y rect + (1 # 5) * H) ((3 # 5) * W) ((2 # 5) * H)) /\
  Rect_eq (legsBox parts)
    (mkRect (x rect + (1 # 5) * W) (y rect + (3 # 5) * H) ((3 # 5) * W) ((2 # 5) * H)).
Proof.
  intros _ _. unfold Rect_eq. cbn.
  repeat split; try reflexivity; ring.
Qed.

(** The 300 x 700 rectangle at (50, 50) of the end-to-end scenario. *)
Lemma partition_boxes_witness :
  let rect := mkRect 50 50 300 700 in
  let parts := partition rect 400 800 in
  Rect_eq (headBox parts)
    (mkRect (50 + (1 # 4) * 300) 50 ((1 # 2) * 300) ((1 # 5) * 700)) /\
  Rect_eq (bodyBox parts)
    (mkRect (50 + (1 # 5) * 300) (50 + (1 # 5) * 700) ((3 # 5) * 300) ((2 # 5) * 700)) /\
  Rect_eq (legsBox parts)
    (mkRect (50 + (1 # 5) * 300) (50 + (3 # 5) * 700) ((3 # 5) * 300) ((2 # 5) * 700)).
Proof.
  exact (partition_boxes (mkRect 50 50 300 700) 400 800 eq_refl eq_refl).
Defined.

(** The boxes of a rectangle with positive sides have positive sides. *)
Lemma partition_positive (rect : Rect) (canvas_width canvas_height : Q) :
  (0 < width rect)%Q -> (0 < height rect)%Q ->
  let parts := partition rect canvas_width canvas_height in
  Forall (fun b => 0 < width b /\ 0 < height b)%Q
    [headBox parts; bodyBox parts; legsBox parts].
Proof.
  intros HW HH. cbn. repeat constructor; cbn; lra.
Qed.

(** The scenario of the specification, to the pixel. *)
Example partition_scenario :
  let parts := partition (mkRect 50 50 300 700) 400 800 in
  Rect_eq (headBox parts) (mkRect 125 50 150 140) /\
  Rect_eq (bodyBox parts) (mkRect 110 190 180 280) /\
  Rect_eq (legsBox parts) (mkRect 110 470 180 280).
Proof. vm_compute. tauto. Qed.

(** ** Extraction: which contour is selected, and when the result is empty *)

Lemma first_largest_above_positive {image mat contour : Type}
    (cv : OpenCV image mat contour) (floor : Q) (cs : list contour) (c : contour) :
  first_largest_above cv floor cs c ->
  ~ Forall (fun c' => (cv_contourArea cv c' <= floor)%Q) cs.
Proof.
  intros (pre & post & -> & Hlt & _ & _) Hall.
  apply Forall_app in Hall as [_ Hall].
  apply Forall_cons in Hall as [Hle _].
  exact (Qlt_not_le _ _ Hlt Hle).
Qed.

(** C3, as the code has it.  On an image of non-zero size, when no step
    throws, the call returns; the result is empty exactly when no contour
    has an area above zero; otherwise it is the partition of the bounding
    rectangle of the first contour among those of greatest area.  (On the
    heap the call leaves one handle per contour found.) *)
Theorem extraction_selects_first_largest {image mat contour : Type}
    (cv : OpenCV image mat contour) (imageElement : ImageElement image)
    (h : NativeHeap) :
  sized imageElement ->
  (forall c, cv_throws cv c = false) ->
  let found := outer_boundaries cv imageElement in
  exists result,
    processDrawingImage cv imageElement h =
      (Normal result, contour_handles (length found) ++ h) /\
    (result = None <-> Forall (fun c => (cv_contourArea cv c <= 0)%Q) found) /\
    (forall parts, result = Some parts ->
       exists c,
         first_largest_above cv 0 found c /\
         parts = partition (cv_boundingRect cv c)
                   (img_width imageElement) (img_height imageElement)).
Proof.
  intros Hsized Hq found.
  destruct (processDrawingImage_quiet cv imageElement h Hsized Hq) as (sel & Hrun & Hsel).
  exists (parts_of cv imageElement sel). split; [exact Hrun |].
  destruct Hsel as [[-> Hall] | (c & -> & Hc)]; cbn.
  - split; [tauto | discriminate].
  - split.
    + split; [discriminate |].
      intros Hall. destruct (first_largest_above_positive cv 0 _ c Hc Hall).
    + intros parts [= <-]. exists c. split; [exact Hc | reflexivity].
Qed.

(** The blob of the end-to-end scenario: its one contour is selected. *)
Lemma extraction_selects_first_largest_witness :
  sized Polygons.blob /\
  exists result,
    processDrawingImage (Polygons.cv Polygons.quiet) Polygons.blob [] =
      (Normal result, [contour_at 0]) /\
    (result = None <->
       Forall (fun c => (Polygons.area c <= 0)%Q)
         (outer_boundaries (Polygons.cv Polygons.quiet) Polygons.blob)) /\
    (forall parts, result = Some parts ->
       exists c,
         first_largest_above (Polygons.cv Polygons.quiet) 0
           (outer_boundaries (Polygons.cv Polygons.quiet) Polygons.blob) c /\
         parts = partition (Polygons.bounds c) 400 800).
Proof.
  assert (Hsized : sized Polygons.blob) by (split; discriminate).
  split; [exact Hsized |].
  exact (extraction_selects_first_largest (Polygons.cv Polygons.quiet) Polygons.blob []
           Hsized (fun c => eq_refl)).
Defined.

(** C3, as stated, fails: a black image one pixel wide yields one boundary,
    the segment between its end pixels, whose area is zero; no step throws,
    a boundary was found, and the result is empty all the same. *)
Lemma extraction_empty_although_boundary_found :
  img_width Polygons.line = 1%Q /\ img_height Polygons.line = 800%Q /\
  outer_boundaries (Polygons.cv Polygons.quiet) Polygons.line = [[(0, 0); (0, 799)]%Z] /\
  (Polygons.area [(0, 0); (0, 799)]%Z == 0)%Q /\
  processDrawingImage (Polygons.cv Polygons.quiet) Polygons.line [] =
    (Normal None, [contour_at 0]).
Proof.
  do 4 (split; [reflexivity |]). reflexivity.
Qed.

(** Among contours of equal greatest area, the first is selected. *)
Example extraction_tie_first :
  let square := [(0, 0); (0, 10); (10, 10); (10, 0)]%Z in
  let shifted := [(20, 0); (20, 10); (30, 10); (30, 0)]%Z in
  processDrawingImage (Polygons.cv Polygons.quiet)
    (mkImage [square; shifted] 400 800) [] =
  (Normal (Some (partition (Polygons.bounds square) 400 800)),
   [contour_at 1; contour_at 0]).
Proof. reflexivity. Qed.

(** ** Release of the native buffers *)

(** X3.  The paths that return.  A call that returns, with parts or with the
    empty result, has released the seven buffers it bound to variables;
    what it leaves on the heap, on top of what it found there, is one
    handle per contour: the matrices of [contours.get(i)], which nothing
    deletes. *)
Lemma processDrawingImage_releases_on_return {image mat contour : Type}
    (cv : OpenCV image mat contour) (imageElement : ImageElement image)
    (h h' : NativeHeap) (result : option Parts) :
  processDrawingImage cv imageElement h = (Normal result, h') ->
  h' = contour_handles (length (outer_boundaries cv imageElement)) ++ h.
Proof.
  intros H. pose proof (processDrawingImage_outcome cv imageElement h) as Ho.
  cbv zeta in Ho. rewrite H in Ho. by destruct Ho as (_ & _ & ->).
Qed.

(** The success path and the empty-result path, on a heap that already holds
    a buffer of an earlier call. *)
Lemma processDrawingImage_releases_on_return_witness :
  (processDrawingImage (Polygons.cv Polygons.quiet) Polygons.blob [src]).2 =
    [contour_at 0; src] /\
  (processDrawingImage (Polygons.cv Polygons.quiet) Polygons.blank [src]).2 = [src].
Proof.
  split.
  - eapply (processDrawingImage_releases_on_return
              (Polygons.cv Polygons.quiet) Polygons.blob [src]).
    vm_compute. reflexivity.
  - eapply (processDrawingImage_releases_on_return
              (Polygons.cv Polygons.quiet) Polygons.blank [src]).
    vm_compute. reflexivity.
Defined.



(** C8.  The thrown-error path releases nothing: when [cv.cvtColor] throws
    for the blob, the call ends with the exception and the source and
    grayscale matrices are still allocated. *)
Theorem processDrawingImage_leaks_on_throw :
  processDrawingImage (Polygons.cv (Polygons.failing cvtColor)) Polygons.blob [] =
  (Throw cvtColor, [gray; src]).
Proof. reflexivity. Qed.

(** ** Objects in the store *)

Lemma lookup_update_eq (r : Ref) (f : Object3D -> Object3D) (st : App) :
  objects (update r f st) !! r = f <$> objects st !! r.
Proof. apply lookup_alter_eq. Qed.

Lemma lookup_update_ne (r r' : Ref) (f : Object3D -> Object3D) (st : App) :
  r <> r' -> objects (update r f st) !! r' = objects st !! r'.
Proof. intros Hne. cbn. by apply lookup_alter_ne. Qed.

Lemma update_missing (r : Ref) (f : Object3D -> Object3D) (st : App) :
  objects st !! r = None -> objects (update r f st) = objects st.
Proof.
  intros Hnone. cbn. apply map_eq. intros i.
  destruct (decide (r = i)) as [<- | Hne].
  - by rewrite lookup_alter_eq, Hnone.
  - by rewrite lookup_alter_ne.
Qed.

(** ** The reticle, frame by frame *)

(** A frame without hits: line 200. *)
Lemma animationLoop_miss (frame : XRFrame) (st : App) :
  getHitTestResults frame = Some [] ->
  animationLoop (Some frame) st = update (reticle st) (set_visible false) st.
Proof. intros Hres. unfold animationLoop. by rewrite Hres. Qed.

Lemma reticle_visible_hidden (st : App) :
  is_Some (objects st !! reticle st) ->
  reticle_visible (update (reticle st) (set_visible false) st) = false.
Proof.
  intros [o Ho]. unfold reticle_visible.
  change (reticle (update (reticle st) (set_visible false) st)) with (reticle st).
  by rewrite lookup_update_eq, Ho.
Qed.

(** C4.  After the update of a frame whose hit-test query returned zero
    results the reticle is not visible, whatever it was before; the rest
    of the reticle, its stored matrix included, is as it was. *)
Theorem no_hit_hides_reticle (frame : XRFrame) (st : App) (o : Object3D) :
  getHitTestResults frame = Some [] ->
  objects st !! reticle st = Some o ->
  let st' := animationLoop (Some frame) st in
  reticle_visible st' = false /\
  objects st' !! reticle st' = Some (set_visible false o).
Proof.
  intros Hres Ho st'. subst st'. rewrite (animationLoop_miss frame st Hres).
  split; [apply reticle_visible_hidden; by exists o |].
  change (reticle (update (reticle st) (set_visible false) st)) with (reticle st).
  by rewrite lookup_update_eq, Ho.
Qed.

(** C10.  A frame that reports a hit whose pose cannot be resolved changes
    nothing at all: the reticle keeps the visibility and the matrix of the
    frame before. *)
Theorem unresolved_pose_keeps_reticle (frame : XRFrame) (st : App)
    (result0 : XRHitTestResult) (rest : list XRHitTestResult) :
  getHitTestResults frame = Some (result0 :: rest) ->
  getPose result0 = None ->
  let st' := animationLoop (Some frame) st in
  st' = st /\
  reticle_visible st' = reticle_visible st /\
  reticle_matrix st' = reticle_matrix st.
Proof.
  intros Hres Hpose. unfold animationLoop. by rewrite Hres, Hpose.
Qed.

(** A frame whose first hit resolves shows the reticle at the resolved pose. *)
Lemma resolved_pose_shows_reticle (frame : XRFrame) (st : App) (o : Object3D)
    (result0 : XRHitTestResult) (rest : list XRHitTestResult) (pose : XRPose) :
  getHitTestResults frame = Some (result0 :: rest) ->
  getPose result0 = Some pose ->
  objects st !! reticle st = Some o ->
  let st' := animationLoop (Some frame) st in
  objects st' !! reticle st' =
    Some (set_matrix (Matrix4.fromArray (transform_matrix pose)) (set_visible true o)).
Proof.
  intros Hres Hpose Ho. unfold animationLoop. rewrite Hres, Hpose.
  cbn -[update]. by rewrite !lookup_update_eq, Ho.
Qed.

(** A falsy result of the query is treated like an empty array. *)
Lemma animationLoop_falsy (frame : XRFrame) (st : App) :
  getHitTestResults frame = None ->
  animationLoop (Some frame) st = update (reticle st) (set_visible false) st.
Proof. intros Hres. unfold animationLoop. by rewrite Hres. Qed.

(** The render callback without a frame leaves the state alone. *)
Lemma no_frame_no_change (st : App) : animationLoop None st = st.
Proof. reflexivity. Qed.

(** ** The click handler *)

(** C5.  A click while the reticle is not visible changes nothing: the
    model keeps its position, rotation, scale and visibility, and no
    animation is requested. *)
Theorem click_without_reticle_is_noop (random now : Q) (st : App) :
  reticle_visible st = false ->
  click random now st = st.
Proof.
  intros Hvis. unfold click. rewrite Hvis. by destruct (model st).
Qed.

Lemma yaw_range (random : Q) :
  (0 <= random)%Q -> (random < 1)%Q ->
  (0 <= random * Js.Math_PI * 2 /\ random * Js.Math_PI * 2 < Js.Math_PI * 2)%Q.
Proof.
  intros H0 H1. unfold Js.Math_PI. split; lra.
Qed.

Lemma reticle_matrix_set_visible (m : Ref) (b : bool) (st : App) :
  reticle_matrix (update m (set_visible b) st) = reticle_matrix st.
Proof.
  unfold reticle_matrix. cbn -[update].
  destruct (decide (m = reticle st)) as [-> | Hne].
  - rewrite lookup_update_eq. by destruct (objects st !! reticle st).
  - by rewrite lookup_update_ne.
Qed.

(** C6.  A click while the reticle is visible makes the model visible,
    sets its position to the translation stored in the reticle's matrix
    (entries 12, 13 and 14) and takes nothing else from that matrix: the
    model's own matrix and its rotation about x and z stay as they were.
    It gives the model a yaw in [0, 2 * Math.PI), sets its scale to 0.001
    on the three axes, leaves every other object alone, and then requests
    the first tick of the pop-in. *)
Theorem click_places_model (random now : Q) (st : App) (m : Ref)
    (o reticle_ : Object3D) :
  objects st !! reticle st = Some reticle_ ->
  visible reticle_ = true ->
  model st = Some m ->
  objects st !! m = Some o ->
  (0 <= random)%Q -> (random < 1)%Q ->
  let st' := click random now st in
  let M := matrix reticle_ in
  let yaw := (random * Js.Math_PI * 2)%Q in
  objects st' !! m =
    Some {| kind := kind o;
            visible := true;
            position := Vector3.mk (nth 12 M 0%Q) (nth 13 M 0%Q) (nth 14 M 0%Q);
            rotation := Vector3.mk (Vector3.x (rotation o)) yaw (Vector3.z (rotation o));
            scale := Vector3.mk 0.001 0.001 0.001;
            matrix := matrix o;
            matrixAutoUpdate := matrixAutoUpdate o;
            children := children o |} /\
  (0 <= yaw)%Q /\ (yaw < Js.Math_PI * 2)%Q /\
  (forall r, r <> m -> objects st' !! r = objects st !! r) /\
  frameRequests st' = frameRequests st ++ [mkPopIn m now].
Proof.
  intros Hret Hshown Hm Ho H0 H1 st' M yaw. subst st' M yaw. unfold click.
  assert (Hvis : reticle_visible st = true)
    by (unfold reticle_visible; by rewrite Hret).
  assert (Hmat : reticle_matrix st = matrix reticle_)
    by (unfold reticle_matrix; by rewrite Hret).
  rewrite Hm, Hvis, reticle_matrix_set_visible, Hmat.
  unfold popIn, requestAnimationFrame.
  destruct (yaw_range random H0 H1) as [Hlo Hhi].
  split.
  { cbn -[update]. rewrite !lookup_update_eq, Ho. reflexivity. }
  split; [exact Hlo |]. split; [exact Hhi |].
  split; [| reflexivity].
  intros r Hr. cbn -[update]. by rewrite !lookup_update_ne by done.
Qed.

(** ** The pop-in animation *)

Lemma dur_positive : (0 < dur)%Q.
Proof. reflexivity. Qed.

Lemma progress_during (start t : Q) :
  (t - start <= dur)%Q ->
  (Js.Math_min 1 ((t - start) / dur) == (t - start) / dur)%Q.
Proof.
  intros Hle. unfold Js.Math_min. apply Q.min_r.
  apply Qle_shift_div_r; [exact dur_positive | lra].
Qed.

Lemma progress_after (start t : Q) :
  (dur <= t - start)%Q ->
  (Js.Math_min 1 ((t - start) / dur) == 1)%Q.
Proof.
  intros Hle. unfold Js.Math_min. apply Q.min_l.
  apply Qle_shift_div_l; [exact dur_positive | lra].
Qed.

Lemma step_scale_during (start t : Q) :
  (t - start <= dur)%Q ->
  (step_scale start t ==
   0.001 + (1 - 0.001) * (1 - (1 - (t - start) / dur) ^ 3))%Q.
Proof.
  intros Hle. unfold step_scale, Js.Math_pow, target_s.
  rewrite (progress_during start t Hle). reflexivity.
Qed.

Lemma step_scale_after (start t : Q) :
  (dur <= t - start)%Q -> (step_scale start t == 1)%Q.
Proof.
  intros Hle. unfold step_scale, Js.Math_pow, target_s.
  rewrite (progress_after start t Hle). reflexivity.
Qed.

Lemma step_again_during (start t : Q) :
  (t - start < dur)%Q -> step_again start t = true.
Proof.
  intros Hlt. unfold step_again. apply lt_true.
  rewrite progress_during by lra.
  apply Qlt_shift_div_r; [exact dur_positive | lra].
Qed.

Lemma step_again_after (start t : Q) :
  (dur <= t - start)%Q -> step_again start t = false.
Proof.
  intros Hle. unfold step_again. apply lt_false.
  rewrite progress_after by assumption. apply Qle_refl.
Qed.

(** C7.  A tick at time [t] of the animation started at [start] sets the
    scale of the mesh to one value [s] on the three axes and leaves its
    other fields alone.  Up to the duration, [s] is
    [0.001 + (1 - 0.001) * (1 - (1 - elapsed / dur) ^ 3)]; from the
    duration on, [s] is 1 and the tick requests no further frame; before
    the duration the tick requests the next frame. *)
Theorem popIn_step (a : PopIn) (t : Q) (st : App) (o : Object3D) :
  objects st !! mesh a = Some o ->
  let elapsed := (t - start a)%Q in
  let st' := step a t st in
  exists s,
    objects st' !! mesh a =
      Some {| kind := kind o;
              visible := visible o;
              position := position o;
              rotation := rotation o;
              scale := Vector3.mk s s s;
              matrix := matrix o;
              matrixAutoUpdate := matrixAutoUpdate o;
              children := children o |} /\
    ((elapsed <= dur)%Q ->
       (s == 0.001 + (1 - 0.001) * (1 - (1 - elapsed / dur) ^ 3))%Q) /\
    ((dur <= elapsed)%Q ->
       (s == 1)%Q /\ frameRequests st' = frameRequests st) /\
    ((elapsed < dur)%Q ->
       frameRequests st' = frameRequests st ++ [a]).
Proof.
  intros Ho elapsed st'. exists (step_scale (start a) t).
  subst st' elapsed. unfold step.
  split; [| split; [| split]].
  - destruct (step_again (start a) t); cbn -[update];
      by rewrite lookup_update_eq, Ho.
  - apply step_scale_during.
  - intros Hle. split; [by apply step_scale_after |].
    by rewrite step_again_after.
  - intros Hlt. by rewrite step_again_during.
Qed.

(** A frame at which every pending animation has run its duration leaves
    no callback waiting. *)
Lemma steps_done (t : Q) (q : list PopIn) (st : App) :
  Forall (fun a => (dur <= t - start a)%Q) q ->
  frameRequests (fold_left (fun st a => step a t st) q st) = frameRequests st.
Proof.
  revert st. induction q as [|a q IH]; intros st Hall; [reflexivity |].
  apply Forall_cons in Hall as [Ha Hq]. cbn [fold_left].
  rewrite (IH _ Hq). unfold step. by rewrite (step_again_after _ _ Ha).
Qed.

Lemma animationFrame_drains (t : Q) (st : App) :
  Forall (fun a => (dur <= t - start a)%Q) (frameRequests st) ->
  frameRequests (animationFrame t st) = [].
Proof. intros Hall. unfold animationFrame. by rewrite (steps_done t _ _ Hall). Qed.

(** ** The rig *)

(** The state after lines 327-352, written out. *)
Lemma skeleton_group_eq (parts : Parts) (st : App) :
  let head := fresh st in
  let body := S head in
  let legs := S body in
  let group := S legs in
  let scale := 0.001%Q in
  let hb := headBox parts in
  let bb := bodyBox parts in
  let lb := legsBox parts in
  skeleton_group parts st =
  (group,
   mkApp
     (alter (fun o => set_children (children o ++ [legs]) o) group
     (alter (fun o => set_children (children o ++ [body]) o) group
     (alter (fun o => set_children (children o ++ [head]) o) group
     (<[group := new_Object3D Group]>
     (alter (set_position (Vector3.set 0
        (- (height bb * scale) / 2 - (height lb * scale) / 2) 0)) legs
     (alter (set_position (Vector3.set 0 0 0)) body
     (alter (set_position (Vector3.set 0
        ((height bb * scale) / 2 + (height hb * scale) / 2) 0)) head
     (<[legs := new_Object3D (Mesh
        (BoxGeometry (width lb * scale) (height lb * scale) 0.12) 0xb197fc)]>
     (<[body := new_Object3D (Mesh
        (BoxGeometry (width bb * scale) (height bb * scale) 0.1) 0x66d9e8)]>
     (<[head := new_Object3D (Mesh
        (BoxGeometry (width hb * scale) (height hb * scale) 0.08) 0xffe066)]>
     (objects st)))))))))))
     (S group) (scene st) (reticle st) (model st) (frameRequests st)).
Proof. reflexivity. Qed.

Lemma replaceWithSkeleton_eq (parts : Parts) (st : App) :
  replaceWithSkeleton parts st =
  attach_model (skeleton_group parts st).1 (detach_model (skeleton_group parts st).2).
Proof. unfold replaceWithSkeleton. by destruct (skeleton_group parts st). Qed.

Lemma scene_detach_model (st : App) : scene (detach_model st) = scene st.
Proof. unfold detach_model. by destruct (model st). Qed.

Lemma lookup_detach_model_ne (r : Ref) (st : App) :
  r <> scene st -> objects (detach_model st) !! r = objects st !! r.
Proof.
  intros Hne. unfold detach_model, remove. destruct (model st); [| done].
  by rewrite lookup_update_ne.
Qed.

Lemma lookup_attach_model_ne (group r : Ref) (st : App) :
  r <> scene st -> r <> group ->
  objects (attach_model group st) !! r = objects st !! r.
Proof.
  intros Hs Hg. unfold attach_model, add.
  rewrite lookup_update_ne by done. by rewrite lookup_update_ne.
Qed.

Lemma lookup_attach_model_eq (group : Ref) (st : App) :
  group <> scene st ->
  objects (attach_model group st) !! group = set_visible false <$> objects st !! group.
Proof.
  intros Hs. unfold attach_model, add.
  rewrite lookup_update_eq. by rewrite lookup_update_ne.
Qed.

Lemma lookup_attach_model_scene (group : Ref) (st : App) :
  group <> scene st ->
  objects (attach_model group st) !! scene st =
  (fun o => set_children (children o ++ [group]) o) <$> objects st !! scene st.
Proof.
  intros Hs. unfold attach_model, add.
  rewrite lookup_update_ne by done.
  change (scene (set_model (Some group) st)) with (scene st).
  by rewrite lookup_update_eq.
Qed.

(** The four objects of a rig, as [replaceWithSkeleton] leaves them. *)
Lemma skeleton_objects (parts : Parts) (st : App) :
  scene st < fresh st ->
  let st' := replaceWithSkeleton parts st in
  let scale := 0.001%Q in
  let hb := headBox parts in
  let bb := bodyBox parts in
  let lb := legsBox parts in
  model st' = Some (fresh st + 3) /\
  objects st' !! (fresh st + 3) =
    Some (set_visible false (set_children
            [fresh st; fresh st + 1; fresh st + 2] (new_Object3D Group))) /\
  objects st' !! fresh st =
    Some (set_position (Vector3.set 0
            ((height bb * scale) / 2 + (height hb * scale) / 2) 0)
          (new_Object3D (Mesh
            (BoxGeometry (width hb * scale) (height hb * scale) 0.08) 0xffe066))) /\
  objects st' !! (fresh st + 1) =
    Some (set_position (Vector3.set 0 0 0)
          (new_Object3D (Mesh
            (BoxGeometry (width bb * scale) (height bb * scale) 0.1) 0x66d9e8))) /\
  objects st' !! (fresh st + 2) =
    Some (set_position (Vector3.set 0
            (- (height bb * scale) / 2 - (height lb * scale) / 2) 0)
          (new_Object3D (Mesh
            (BoxGeometry (width lb * scale) (height lb * scale) 0.12) 0xb197fc))).
Proof.
  intros Hs st' scale hb bb lb. subst st'.
  rewrite replaceWithSkeleton_eq.
  pose proof (skeleton_group_eq parts st) as E. cbv zeta in E. rewrite E. clear E.
  cbn [fst snd].
  replace (fresh st + 3) with (S (S (S (fresh st)))) by lia.
  replace (fresh st + 2) with (S (S (fresh st))) by lia.
  replace (fresh st + 1) with (S (fresh st)) by lia.
  split; [reflexivity |].
  split.
  { rewrite lookup_attach_model_eq
      by (rewrite scene_detach_model; cbn [scene]; lia).
    rewrite lookup_detach_model_ne by (cbn [scene]; lia).
    cbn [objects]. store. reflexivity. }
  repeat split.
  all: rewrite lookup_attach_model_ne
         by (rewrite ?scene_detach_model; cbn [scene]; lia).
  all: rewrite lookup_detach_model_ne by (cbn [scene]; lia).
  all: cbn [objects]; store; reflexivity.
Qed.

Lemma rig_of_eq (st : App) (m head body legs : Ref) (og oh ob ol : Object3D) :
  model st = Some m ->
  objects st !! m = Some og ->
  children og = [head; body; legs] ->
  objects st !! head = Some oh ->
  objects st !! body = Some ob ->
  objects st !! legs = Some ol ->
  rig_of st = Some (oh, ob, ol).
Proof.
  intros Hm Hg Hc Hh Hb Hl. unfold rig_of.
  rewrite Hm. cbn. rewrite Hg. cbn. rewrite Hc, Hh. cbn. rewrite Hb. cbn.
  by rewrite Hl.
Qed.

(** C2.  In the rig built from any parts, the body sits at the local origin,
    head and legs are centred on the same vertical axis, the head's centre
    is half the body's plus half the head's height above the body's, and
    the legs' centre is half the body's plus half the legs' height below
    it; so the head's lower face is the body's upper face and the body's
    lower face is the legs' upper face. *)
Theorem skeleton_stacked (parts : Parts) (st : App) :
  scene st < fresh st ->
  exists head body legs,
    rig_of (replaceWithSkeleton parts st) = Some (head, body, legs) /\
    (world_height head == height (headBox parts) * 0.001)%Q /\
    (world_height body == height (bodyBox parts) * 0.001)%Q /\
    (world_height legs == height (legsBox parts) * 0.001)%Q /\
    position body = Vector3.mk 0 0 0 /\
    Vector3.x (position head) = 0%Q /\ Vector3.z (position head) = 0%Q /\
    Vector3.x (position legs) = 0%Q /\ Vector3.z (position legs) = 0%Q /\
    (Vector3.y (position head) - Vector3.y (position body)
       == (world_height body + world_height head) / 2)%Q /\
    (Vector3.y (position body) - Vector3.y (position legs)
       == (world_height body + world_height legs) / 2)%Q /\
    (Vector3.y (position head) - world_height head / 2
       == Vector3.y (position body) + world_height body / 2)%Q /\
    (Vector3.y (position body) - world_height body / 2
       == Vector3.y (position legs) + world_height legs / 2)%Q.
Proof.
  intros Hs.
  destruct (skeleton_objects parts st Hs) as (Hm & Hg & Hh & Hb & Hl).
  do 3 eexists. split.
  { exact (rig_of_eq _ _ _ _ _ _ _ _ _ Hm Hg eq_refl Hh Hb Hl). }
  unfold world_height. cbn.
  repeat split; try reflexivity; field.
Qed.

(** ** Replacing the model in the scene *)

Lemma elem_of_splice_out (r x : Ref) (cs : list Ref) :
  x ∈ splice_out r cs -> x ∈ cs.
Proof.
  induction cs as [|c cs IH]; cbn; [done |].
  case_decide; rewrite !elem_of_cons; [tauto |].
  intros [-> | Hx]; [by left | right; auto].
Qed.

Lemma splice_out_NoDup (r : Ref) (cs : list Ref) :
  NoDup cs -> NoDup (splice_out r cs) /\ r ∉ splice_out r cs.
Proof.
  induction 1 as [|c cs Hc Hnd [IHnd IHr]]; cbn.
  - split; [constructor | apply not_elem_of_nil].
  - case_decide as Hcr.
    + subst c. split; assumption.
    + split.
      * constructor; [| assumption].
        intros Hin. apply Hc. by apply elem_of_splice_out in Hin.
      * rewrite elem_of_cons. intros [-> | Hin]; [done | by apply IHr].
Qed.

Lemma splice_out_length (r : Ref) (cs : list Ref) :
  r ∈ cs -> S (length (splice_out r cs)) = length cs.
Proof.
  induction cs as [|c cs IH]; cbn.
  - intros Hin. by apply elem_of_nil in Hin.
  - case_decide as Hcr; [done |].
    rewrite elem_of_cons. intros [-> | Hin]; [done |].
    cbn. by rewrite IH.
Qed.

(** A mutation that keeps the children of its object keeps the scene. *)
Lemma scene_children_update (r : Ref) (f : Object3D -> Object3D) (st : App) :
  (forall o, children (f o) = children o) ->
  scene_children (update r f st) = scene_children st.
Proof.
  intros Hf. unfold scene_children. cbn [scene update set_objects].
  destruct (decide (r = scene st)) as [-> | Hne].
  - change (alter f (scene st) (objects st)) with (objects (update (scene st) f st)).
    rewrite lookup_update_eq. destruct (objects st !! scene st); cbn; [apply Hf | done].
  - change (alter f r (objects st)) with (objects (update r f st)).
    by rewrite lookup_update_ne.
Qed.

(** Building the group does not touch the scene. *)
Lemma skeleton_group_scene (parts : Parts) (st : App) :
  scene st < fresh st ->
  let built := skeleton_group parts st in
  built.1 = fresh st + 3 /\
  scene built.2 = scene st /\
  model built.2 = model st /\
  objects built.2 !! scene st = objects st !! scene st /\
  is_Some (objects built.2 !! built.1).
Proof.
  intros Hs built. subst built.
  pose proof (skeleton_group_eq parts st) as E. cbv zeta in E. rewrite E. clear E.
  cbn [fst snd scene model objects].
  split; [lia |]. split; [reflexivity |]. split; [reflexivity |].
  split; store; [reflexivity | by eexists].
Qed.

(** The scene before, between and after lines 354-357. *)
Lemma replaceWithSkeleton_scene (parts : Parts) (st : App) (old : Ref) :
  scene st < fresh st ->
  model st = Some old ->
  old ∈ scene_children st ->
  let built := skeleton_group parts st in
  let group := built.1 in
  let detached := detach_model built.2 in
  let st' := replaceWithSkeleton parts st in
  group = fresh st + 3 /\
  st' = attach_model group detached /\
  scene_children detached = splice_out old (scene_children st) /\
  scene_children st' = splice_out old (scene_children st) ++ [group] /\
  model st' = Some group /\
  exists og, objects st' !! group = Some og /\ visible og = false.
Proof.
  intros Hs Hmodel Hold built group detached st'.
  destruct (skeleton_group_scene parts st Hs)
    as (Hgroup & Hscene & Hmod & Hlookup & [og Hog]).
  fold built in Hgroup, Hscene, Hmod, Hlookup, Hog.
  fold group in Hgroup, Hog.
  assert (Hos : exists os, objects st !! scene st = Some os /\
                           children os = scene_children st).
  { unfold scene_children in Hold |- *.
    destruct (objects st !! scene st) as [os|]; [by exists os |].
    by apply elem_of_nil in Hold. }
  destruct Hos as (os & Hos & Hcs).
  assert (Hdscene : scene detached = scene st)
    by (subst detached; by rewrite scene_detach_model).
  assert (Hdet : objects detached !! scene st =
                 Some (set_children (splice_out old (scene_children st)) os)).
  { subst detached. unfold detach_model, remove. rewrite Hmod, Hmodel, Hscene.
    rewrite lookup_update_eq, Hlookup, Hos. cbn. by rewrite Hcs. }
  assert (Hst' : st' = attach_model group detached)
    by (subst st' detached group built; apply replaceWithSkeleton_eq).
  split; [exact Hgroup |].
  split; [exact Hst' |].
  split; [unfold scene_children; by rewrite Hdscene, Hdet |].
  split.
  { rewrite Hst'. unfold scene_children at 1.
    change (scene (attach_model group detached)) with (scene detached).
    rewrite lookup_attach_model_scene by lia.
    by rewrite Hdscene, Hdet. }
  split; [by rewrite Hst' |].
  exists (set_visible false og). split; [| reflexivity].
  rewrite Hst', lookup_attach_model_eq by lia.
  subst detached. rewrite lookup_detach_model_ne by lia. by rewrite Hog.
Qed.

(** C9.  When a rig is built while the scene holds a model, the model is
    taken out of the scene first (in the state between, the scene holds
    neither), then the new group becomes [model] and is appended to the
    scene and hidden; the scene holds as many objects as before, the old
    model is not among them, and [model] addresses the new group alone. *)
Theorem skeleton_replaces_model (parts : Parts) (st : App) (old : Ref) :
  scene_well_formed st ->
  model st = Some old ->
  old ∈ scene_children st ->
  let built := skeleton_group parts st in
  let group := built.1 in
  let detached := detach_model built.2 in
  let st' := replaceWithSkeleton parts st in
  st' = attach_model group detached /\
  (old ∉ scene_children detached) /\
  (group ∉ scene_children detached) /\
  scene_children st' = splice_out old (scene_children st) ++ [group] /\
  (old ∉ scene_children st') /\
  NoDup (scene_children st') /\
  length (scene_children st') = length (scene_children st) /\
  model st' = Some group /\
  group <> old /\
  exists og, objects st' !! group = Some og /\ visible og = false.
Proof.
  intros (Hs & Hnd & Hall) Hmodel Hold built group detached st'.
  destruct (replaceWithSkeleton_scene parts st old Hs Hmodel Hold)
    as (Hgroup & Hst' & Hdchildren & Hfinal & Hm' & Hog).
  fold built in Hgroup, Hst', Hdchildren, Hfinal, Hm', Hog.
  fold group in Hgroup, Hst', Hfinal, Hm', Hog.
  fold detached in Hst', Hdchildren. fold st' in Hst', Hfinal, Hm', Hog.
  rewrite Forall_forall in Hall.
  assert (Hlt : old < fresh st) by (by apply Hall).
  destruct (splice_out_NoDup old _ Hnd) as [Hnd' Hout].
  split; [exact Hst' |].
  split; [by rewrite Hdchildren |].
  split.
  { rewrite Hdchildren. intros Hin. apply elem_of_splice_out, Hall in Hin. lia. }
  split; [exact Hfinal |].
  split.
  { rewrite Hfinal, elem_of_app, list_elem_of_singleton. intros [Hin | ->]; [done | lia]. }
  split.
  { rewrite Hfinal. apply NoDup_app. split; [exact Hnd' |]. split.
    - intros r Hin. rewrite list_elem_of_singleton. intros ->.
      apply elem_of_splice_out, Hall in Hin. lia.
    - apply NoDup_singleton. }
  split.
  { rewrite Hfinal, length_app. cbn. rewrite <- (splice_out_length old _ Hold). lia. }
  split; [exact Hm' |].
  split; [lia |].
  exact Hog.
Qed.

(** ** Sessions *)

Lemma session_state_update (r : Ref) (f : Object3D -> Object3D) (st : App) :
  (forall o, children (f o) = children o) ->
  session_state st -> session_state (update r f st).
Proof.
  intros Hf (Hs & Hr & Hret & m & Hm & Hlt & Hobj & Hcs).
  assert (Hkeep : forall k, is_Some (objects st !! k) ->
                            is_Some (objects (update r f st) !! k)).
  { intros k [o Ho]. destruct (decide (r = k)) as [-> | Hne].
    - rewrite lookup_update_eq, Ho. by eexists.
    - rewrite lookup_update_ne, Ho by done. by eexists. }
  split; [exact Hs |]. split; [exact Hr |].
  split; [by apply Hkeep |].
  exists m. split; [exact Hm |]. split; [exact Hlt |].
  split; [by apply Hkeep |].
  by rewrite scene_children_update.
Qed.

Lemma session_state_frameRequests (q : list PopIn) (st : App) :
  session_state st -> session_state (set_frameRequests q st).
Proof. intros H. exact H. Qed.

Lemma session_state_animationLoop (frame : option XRFrame) (st : App) :
  session_state st -> session_state (animationLoop frame st).
Proof.
  intros H. unfold animationLoop.
  destruct frame as [frame|]; [| exact H].
  destruct (getHitTestResults frame) as [[|result0 rest]|];
    [by apply session_state_update | | by apply session_state_update].
  destruct (getPose result0); [| exact H].
  by repeat (apply session_state_update; [done |]).
Qed.

Lemma session_state_click (random now : Q) (st : App) :
  session_state st -> session_state (click random now st).
Proof.
  intros H. unfold click.
  destruct (model st) as [m|]; [| exact H].
  destruct (reticle_visible st); [| exact H].
  unfold popIn, requestAnimationFrame.
  apply session_state_frameRequests.
  by repeat (apply session_state_update; [done |]).
Qed.

Lemma session_state_step (a : PopIn) (t : Q) (st : App) :
  session_state st -> session_state (step a t st).
Proof.
  intros H. unfold step.
  destruct (step_again (start a) t);
    [apply session_state_frameRequests |]; by apply session_state_update.
Qed.

Lemma session_state_animationFrame (t : Q) (st : App) :
  session_state st -> session_state (animationFrame t st).
Proof.
  intros H. unfold animationFrame.
  generalize (session_state_frameRequests [] st H).
  generalize (set_frameRequests [] st).
  induction (frameRequests st) as [|a q IH]; intros st0 H0; [exact H0 |].
  cbn. apply IH. by apply session_state_step.
Qed.

Lemma session_state_well_formed (st : App) :
  session_state st -> scene_well_formed st.
Proof.
  intros (Hs & Hr & Hret & m & Hm & Hlt & Hobj & Hcs).
  unfold scene_well_formed. rewrite Hs, Hcs.
  split; [lia |]. split.
  - repeat constructor; rewrite ?elem_of_cons, ?elem_of_nil; lia.
  - repeat constructor; lia.
Qed.

Lemma session_state_setupScene : session_state setupScene.
Proof.
  split; [reflexivity |]. split; [reflexivity |].
  split; [by eexists |].
  exists 3. split; [reflexivity |]. split; [cbn; lia |].
  split; [by eexists | reflexivity].
Qed.

Lemma attach_model_frame (group : Ref) (st : App) :
  scene (attach_model group st) = scene st /\
  reticle (attach_model group st) = reticle st /\
  fresh (attach_model group st) = fresh st.
Proof. by repeat split. Qed.

Lemma detach_model_frame (st : App) :
  scene (detach_model st) = scene st /\
  reticle (detach_model st) = reticle st /\
  fresh (detach_model st) = fresh st.
Proof. unfold detach_model. by destruct (model st). Qed.

Lemma replaceWithSkeleton_frame (parts : Parts) (st : App) :
  scene (replaceWithSkeleton parts st) = scene st /\
  reticle (replaceWithSkeleton parts st) = reticle st /\
  fresh (replaceWithSkeleton parts st) = fresh st + 4.
Proof.
  rewrite replaceWithSkeleton_eq.
  destruct (attach_model_frame (skeleton_group parts st).1
              (detach_model (skeleton_group parts st).2)) as (-> & -> & ->).
  destruct (detach_model_frame (skeleton_group parts st).2) as (-> & -> & ->).
  pose proof (skeleton_group_eq parts st) as E. cbv zeta in E. rewrite E.
  cbn [snd scene reticle fresh]. repeat split. lia.
Qed.

Lemma session_state_replaceWithSkeleton (parts : Parts) (st : App) :
  session_state st -> session_state (replaceWithSkeleton parts st).
Proof.
  intros H. pose proof (session_state_well_formed st H) as Hwf.
  destruct H as (Hs & Hr & [oret Hret] & m & Hm & Hlt & Hobj & Hcs).
  assert (Hin : m ∈ scene_children st)
    by (rewrite Hcs, !elem_of_cons; tauto).
  destruct (replaceWithSkeleton_scene parts st m (proj1 Hwf) Hm Hin)
    as (Hgroup & Hst' & _ & Hfinal & Hmodel & og & Hog & _).
  destruct (skeleton_group_scene parts st (proj1 Hwf))
    as (_ & Hscene & Hmod & _ & _).
  rewrite Hgroup in Hfinal, Hmodel, Hog.
  destruct (replaceWithSkeleton_frame parts st) as (Hscene' & Hreticle & Hfresh).
  split; [by rewrite Hscene' |].
  split; [by rewrite Hreticle |].
  split.
  { rewrite Hreticle, replaceWithSkeleton_eq.
    rewrite lookup_attach_model_ne
      by (rewrite ?scene_detach_model, ?Hscene, ?Hgroup; lia).
    rewrite lookup_detach_model_ne by (rewrite Hscene; lia).
    pose proof (skeleton_group_eq parts st) as E. cbv zeta in E. rewrite E.
    cbn [snd objects]. store. by rewrite Hret. }
  exists (fresh st + 3). split; [exact Hmodel |].
  split; [lia |]. split; [by eexists |].
  rewrite Hfinal, Hcs. cbn.
  repeat (case_decide; [lia |]). by case_decide.
Qed.

Lemma session_state_initAR {image mat contour : Type} (cvReady : bool)
    (cv : OpenCV image mat contour) (uploadedImage : ImageElement image)
    (h : NativeHeap) :
  session_state (initAR cvReady cv uploadedImage h).1.
Proof.
  unfold initAR. destruct cvReady; [| exact session_state_setupScene].
  destruct (processDrawingImage cv uploadedImage h) as [[[parts|]|c] h'];
    cbn [fst]; try exact session_state_setupScene.
  apply session_state_replaceWithSkeleton, session_state_setupScene.
Qed.

Lemma session_state_run (evs : list Event) (st : App) :
  session_state st -> session_state (run evs st).
Proof.
  unfold run. revert st. induction evs as [|ev evs IH]; intros st H; [exact H |].
  cbn. apply IH. destruct ev; cbn.
  - by apply session_state_animationLoop.
  - by apply session_state_click.
  - by apply session_state_animationFrame.
Qed.

(** X9.  At any moment of any session the scene holds the light, the reticle and
    exactly the one object that [model] addresses. *)
Theorem session_single_model {image mat contour : Type} (cvReady : bool)
    (cv : OpenCV image mat contour) (uploadedImage : ImageElement image)
    (h : NativeHeap) (evs : list Event) :
  let st := run evs (initAR cvReady cv uploadedImage h).1 in
  exists m, model st = Some m /\ scene_children st = [1; reticle st; m] /\
            reticle st <> m /\ is_Some (objects st !! m).
Proof.
  destruct (session_state_run evs _
              (session_state_initAR cvReady cv uploadedImage h))
    as (Hs & Hr & Hret & m & Hm & Hlt & Hobj & Hcs).
  exists m. rewrite Hr. repeat split; try assumption. lia.
Qed.

(** X10.  In any session, after a frame without hits the reticle is hidden,
    whatever it showed before. *)
Theorem session_miss_hides_reticle {image mat contour : Type} (cvReady : bool)
    (cv : OpenCV image mat contour) (uploadedImage : ImageElement image)
    (h : NativeHeap) (evs : list Event) (frame : XRFrame) :
  getHitTestResults frame = Some [] ->
  reticle_visible
    (run (evs ++ [XRFrameEvent (Some frame)])
       (initAR cvReady cv uploadedImage h).1) = false.
Proof.
  intros Hres. unfold run. rewrite fold_left_app. cbn [fold_left dispatch].
  destruct (session_state_run evs _
              (session_state_initAR cvReady cv uploadedImage h))
    as (_ & _ & Hret & _).
  rewrite (animationLoop_miss frame _ Hres).
  by apply reticle_visible_hidden.
Qed.

(** ** The statements at the scenario *)

Lemma skeleton_stacked_witness :
  scene setupScene < fresh setupScene /\
  exists head body legs,
    rig_of (replaceWithSkeleton Scenario.parts setupScene) = Some (head, body, legs) /\
    (world_height head == height (headBox Scenario.parts) * 0.001)%Q /\
    (world_height body == height (bodyBox Scenario.parts) * 0.001)%Q /\
    (world_height legs == height (legsBox Scenario.parts) * 0.001)%Q /\
    position body = Vector3.mk 0 0 0 /\
    Vector3.x (position head) = 0%Q /\ Vector3.z (position head) = 0%Q /\
    Vector3.x (position legs) = 0%Q /\ Vector3.z (position legs) = 0%Q /\
    (Vector3.y (position head) - Vector3.y (position body)
       == (world_height body + world_height head) / 2)%Q /\
    (Vector3.y (position body) - Vector3.y (position legs)
       == (world_height body + world_height legs) / 2)%Q /\
    (Vector3.y (position head) - world_height head / 2
       == Vector3.y (position body) + world_height body / 2)%Q /\
    (Vector3.y (position body) - world_height body / 2
       == Vector3.y (position legs) + world_height legs / 2)%Q.
Proof.
  split; [cbn; lia |].
  apply (skeleton_stacked Scenario.parts setupScene). cbn; lia.
Defined.

Lemma scene_well_formed_setupScene : scene_well_formed setupScene.
Proof. exact (session_state_well_formed _ session_state_setupScene). Qed.

Lemma skeleton_replaces_model_witness :
  scene_children setupScene = [1; 2; 3] /\
  let built := skeleton_group Scenario.parts setupScene in
  let group := built.1 in
  let detached := detach_model built.2 in
  let st' := replaceWithSkeleton Scenario.parts setupScene in
  st' = attach_model group detached /\
  (3 ∉ scene_children detached) /\
  (group ∉ scene_children detached) /\
  scene_children st' = splice_out 3 (scene_children setupScene) ++ [group] /\
  (3 ∉ scene_children st') /\
  NoDup (scene_children st') /\
  length (scene_children st') = length (scene_children setupScene) /\
  model st' = Some group /\
  group <> 3 /\
  exists og, objects st' !! group = Some og /\ visible og = false.
Proof.
  split; [reflexivity |].
  apply (skeleton_replaces_model Scenario.parts setupScene 3).
  - exact scene_well_formed_setupScene.
  - reflexivity.
  - change (3 ∈ [1; 2; 3]). rewrite !elem_of_cons. tauto.
Defined.

Lemma no_hit_hides_reticle_witness :
  reticle_visible Scenario.aimed = true /\
  let st' := animationLoop (Some Scenario.miss) Scenario.aimed in
  reticle_visible st' = false /\
  objects st' !! reticle st' =
    Some (set_visible false
            (set_matrix (Matrix4.fromArray (transform_matrix Scenario.pose))
               (set_visible true
                  (set_visible false (set_matrixAutoUpdate false
                     (new_Object3D (Mesh (RingGeometry 0.08 0.11 32) 0xffffff))))))).
Proof.
  split; [vm_compute; reflexivity |].
  apply (no_hit_hides_reticle Scenario.miss Scenario.aimed); vm_compute; reflexivity.
Defined.

Lemma unresolved_pose_keeps_reticle_witness :
  reticle_visible Scenario.aimed = true /\
  let st' := animationLoop (Some Scenario.unresolved) Scenario.aimed in
  st' = Scenario.aimed /\
  reticle_visible st' = reticle_visible Scenario.aimed /\
  reticle_matrix st' = reticle_matrix Scenario.aimed.
Proof.
  split; [vm_compute; reflexivity |].
  exact (unresolved_pose_keeps_reticle Scenario.unresolved Scenario.aimed
           (mkXRHitTestResult None) [] eq_refl eq_refl).
Defined.

Lemma click_without_reticle_is_noop_witness :
  let hidden := animationLoop (Some Scenario.miss) Scenario.aimed in
  reticle_visible hidden = false /\
  click (1 # 2) 1000 hidden = hidden.
Proof.
  split; [vm_compute; reflexivity |].
  apply click_without_reticle_is_noop. vm_compute; reflexivity.
Defined.

(** The click of the scenario: the reticle lies at the pose of the frame
    before, one unit to the right and two in front, and the rig is put
    there. *)
Lemma click_places_model_witness :
  let reticle_ :=
    {| kind := Mesh (RingGeometry 0.08 0.11 32) 0xffffff;
       visible := true;
       position := Vector3.mk 0 0 0;
       rotation := Vector3.mk 0 0 0;
       scale := Vector3.mk 1 1 1;
       matrix := [1; 0; 0; 0;  0; 1; 0; 0;  0; 0; 1; 0;  1; 0; -2; 1]%Q;
       matrixAutoUpdate := false;
       children := [] |} in
  let group :=
    {| kind := Group;
       visible := false;
       position := Vector3.mk 0 0 0;
       rotation := Vector3.mk 0 0 0;
       scale := Vector3.mk 1 1 1;
       matrix := Matrix4.identity;
       matrixAutoUpdate := true;
       children := [4; 5; 6] |} in
  objects Scenario.aimed !! reticle Scenario.aimed = Some reticle_ /\
  model Scenario.aimed = Some 7 /\
  objects Scenario.aimed !! 7 = Some group /\
  let st' := click (1 # 2) 1000 Scenario.aimed in
  let yaw := ((1 # 2) * Js.Math_PI * 2)%Q in
  objects st' !! 7 =
    Some {| kind := Group;
            visible := true;
            position := Vector3.mk 1 0 (-2);
            rotation := Vector3.mk 0 yaw 0;
            scale := Vector3.mk 0.001 0.001 0.001;
            matrix := Matrix4.identity;
            matrixAutoUpdate := true;
            children := [4; 5; 6] |} /\
  (0 <= yaw)%Q /\ (yaw < Js.Math_PI * 2)%Q /\
  (forall r, r <> 7 -> objects st' !! r = objects Scenario.aimed !! r) /\
  frameRequests st' = frameRequests Scenario.aimed ++ [mkPopIn 7 1000].
Proof.
  intros reticle_ group.
  split; [vm_compute; reflexivity |]. split; [vm_compute; reflexivity |].
  split; [vm_compute; reflexivity |].
  apply (click_places_model (1 # 2) 1000 Scenario.aimed 7 group reticle_);
    vm_compute; first [reflexivity | discriminate].
Defined.

(** The tick at time 1110 of the animation started at 1000: half way. *)
Lemma popIn_step_witness :
  let group :=
    {| kind := Group;
       visible := true;
       position := Vector3.mk 1 0 (-2);
       rotation := Vector3.mk 0 ((1 # 2) * Js.Math_PI * 2) 0;
       scale := Vector3.mk 0.001 0.001 0.001;
       matrix := Matrix4.identity;
       matrixAutoUpdate := true;
       children := [4; 5; 6] |} in
  objects Scenario.placed !! 7 = Some group /\
  let a := mkPopIn 7 1000 in
  let elapsed := (1110 - start a)%Q in
  let st' := step a 1110 Scenario.placed in
  exists s,
    objects st' !! mesh a =
      Some {| kind := Group;
              visible := true;
              position := Vector3.mk 1 0 (-2);
              rotation := Vector3.mk 0 ((1 # 2) * Js.Math_PI * 2) 0;
              scale := Vector3.mk s s s;
              matrix := Matrix4.identity;
              matrixAutoUpdate := true;
              children := [4; 5; 6] |} /\
    ((elapsed <= dur)%Q ->
       (s == 0.001 + (1 - 0.001) * (1 - (1 - elapsed / dur) ^ 3))%Q) /\
    ((dur <= elapsed)%Q ->
       (s == 1)%Q /\ frameRequests st' = frameRequests Scenario.placed) /\
    ((elapsed < dur)%Q ->
       frameRequests st' = frameRequests Scenario.placed ++ [a]).
Proof.
  intros group.
  split; [vm_compute; reflexivity |].
  apply (popIn_step (mkPopIn 7 1000) 1110 Scenario.placed group).
  vm_compute; reflexivity.
Defined.

(** The scenario of two frames: a frame with a hit shows the reticle and a
    click places the model; the next frame has no hit, the reticle is
    hidden, and a click changes nothing. *)
Example scenario_two_frames :
  let missed := animationLoop (Some Scenario.miss) Scenario.placed in
  reticle_visible Scenario.started = false /\
  (visible <$> model_object Scenario.started) = Some false /\
  reticle_visible Scenario.aimed = true /\
  (visible <$> model_object Scenario.placed) = Some true /\
  (position <$> model_object Scenario.placed) = Some (Vector3.mk 1 0 (-2)) /\
  reticle_visible missed = false /\
  click (1 # 3) 2000 missed = missed.
Proof. repeat split; vm_compute; reflexivity. Qed.

(** The pop-in of the scenario: started at 1000, half way at 1110, at full
    scale at 1220, and then no callback is left. *)
Example scenario_popIn :
  let half := animationFrame 1110 Scenario.placed in
  let done := animationFrame 1220 half in
  let scale_x st := from_option (fun o => Vector3.x (scale o)) 0%Q (model_object st) in
  (scale_x Scenario.placed == 0.001)%Q /\
  (scale_x half == 0.875125)%Q /\ frameRequests half = [mkPopIn 7 1000] /\
  (scale_x done == 1)%Q /\ frameRequests done = [] /\
  animationFrame 1236 done = done.
Proof. repeat split; vm_compute; reflexivity. Qed.

(** ** The arithmetic of the scenario in binary64 *)

(** The partition of the 300 x 700 rectangle at (50, 50) is exact. *)
Example binary64_partition_scenario :
  Binary64.partition_fields 50 50 300 700 =
  [125; 50; 150; 140;  110; 190; 180; 280;  110; 470; 180; 280]%float.
Proof. vm_compute. reflexivity. Qed.

(** A width of 3 pixels shows the rounding the rationals leave out:
    [3 * 0.2] is not the binary64 value nearest to 3/5. *)
Example binary64_partition_rounding :
  (3 * 0.2 =? 0.6)%float = false /\ (3 * 0.2 =? 0.6000000000000001)%float = true.
Proof. split; vm_compute; reflexivity. Qed.

(** Head and legs of the scenario sit at plus and minus half the sum of the
    heights. *)
Example binary64_stack_scenario :
  let head := (700 * 0.2 * 0.001)%float in
  let body := (700 * 0.4 * 0.001)%float in
  let legs := (700 * 0.4 * 0.001)%float in
  Binary64.head_y (700 * 0.4) (700 * 0.2) = ((body + head) / 2)%float /\
  (0 - Binary64.legs_y (700 * 0.4) (700 * 0.4))%float = ((body + legs) / 2)%float.
Proof. split; vm_compute; reflexivity. Qed.

(** The greatest value [Math.random] can return still gives a yaw below
    [Math.PI * 2]. *)
Example binary64_yaw_below :
  (Binary64.yaw 0x1.fffffffffffffp-1 <? Binary64.Math_PI * 2)%float = true /\
  Binary64.yaw 0 = 0%float.
Proof. split; vm_compute; reflexivity. Qed.

(** A tick at or after the duration sets the scale to exactly 1. *)
Example binary64_final_scale :
  Binary64.step_scale 1000 1220 = 1%float /\
  Binary64.step_scale 1000 5000 = 1%float /\
  (Binary64.step_scale 1000 1219 <? 1)%float = true.
Proof. repeat split; vm_compute; reflexivity. Qed.

(** ** Sessions, continued *)

(** A frame with a hit, then a frame without. *)
Lemma session_miss_hides_reticle_witness :
  reticle_visible
    (run ([XRFrameEvent (Some Scenario.hit)] ++ [XRFrameEvent (Some Scenario.miss)])
       (initAR true (Polygons.cv Polygons.quiet) Polygons.blob []).1) = false.
Proof.
  exact (session_miss_hides_reticle true (Polygons.cv Polygons.quiet) Polygons.blob []
           [XRFrameEvent (Some Scenario.hit)] Scenario.miss eq_refl).
Defined.

(** ** The partition within the rectangle *)

(** X2.  No box reaches outside the bounding rectangle, and no box has a
    negative side, when the rectangle has none. *)
Theorem partition_inside (rect : Rect) (canvas_width canvas_height : Q) :
  (0 <= width rect)%Q -> (0 <= height rect)%Q ->
  let parts := partition rect canvas_width canvas_height in
  Forall (fun b => Rect_inside b rect /\ (0 <= width b)%Q /\ (0 <= height b)%Q)
    [headBox parts; bodyBox parts; legsBox parts].
Proof.
  intros HW HH. unfold Rect_inside. cbn.
  repeat constructor; cbn; lra.
Qed.

Lemma partition_inside_witness :
  let rect := mkRect 50 50 300 700 in
  let parts := partition rect 400 800 in
  Forall (fun b => Rect_inside b rect /\ (0 <= width b)%Q /\ (0 <= height b)%Q)
    [headBox parts; bodyBox parts; legsBox parts].
Proof.
  apply (partition_inside (mkRect 50 50 300 700) 400 800); cbn; lra.
Defined.

(** ** replaceWithSkeleton on any scene *)

Lemma splice_out_absent (r : Ref) (cs : list Ref) :
  r ∉ cs -> splice_out r cs = cs.
Proof.
  induction cs as [|c cs IH]; [done |].
  rewrite not_elem_of_cons. intros [Hne Hnot]. cbn.
  case_decide; [congruence |]. by rewrite IH.
Qed.

Lemma model_attach_model (group : Ref) (st : App) :
  model (attach_model group st) = Some group.
Proof. reflexivity. Qed.

(** Objects older than the rig, the scene apart, are not touched. *)
Lemma replaceWithSkeleton_keeps (parts : Parts) (st : App) (r : Ref) :
  scene st < fresh st -> r < fresh st -> r <> scene st ->
  objects (replaceWithSkeleton parts st) !! r = objects st !! r.
Proof.
  intros Hs Hr Hne.
  destruct (skeleton_group_scene parts st Hs) as (Hgroup & Hscene & _).
  rewrite replaceWithSkeleton_eq.
  rewrite lookup_attach_model_ne
    by (rewrite ?scene_detach_model, ?Hscene, ?Hgroup; lia).
  rewrite lookup_detach_model_ne by (rewrite Hscene; lia).
  pose proof (skeleton_group_eq parts st) as E. cbv zeta in E. rewrite E.
  cbn [snd objects]. by store.
Qed.

Lemma replaceWithSkeleton_frameRequests (parts : Parts) (st : App) :
  frameRequests (replaceWithSkeleton parts st) = frameRequests st.
Proof.
  rewrite replaceWithSkeleton_eq.
  pose proof (skeleton_group_eq parts st) as E. cbv zeta in E. rewrite E.
  unfold attach_model, detach_model. cbn [snd model].
  by destruct (model st).
Qed.

(** X6.  [replaceWithSkeleton] on any state whose scene exists: the new
    group becomes [model] and the last child of the scene; a model held
    before is taken out of the scene (nothing is taken out when [model] is
    empty or not a child); four objects are created, and no older object
    but the scene, no pending animation and not the reticle is touched. *)
Theorem replaceWithSkeleton_any_scene (parts : Parts) (st : App) (os : Object3D) :
  scene st < fresh st ->
  objects st !! scene st = Some os ->
  let st' := replaceWithSkeleton parts st in
  model st' = Some (fresh st + 3) /\
  scene_children st' =
    match model st with
    | Some old => splice_out old (children os)
    | None => children os
    end ++ [fresh st + 3] /\
  (forall r, r < fresh st -> r <> scene st -> objects st' !! r = objects st !! r) /\
  frameRequests st' = frameRequests st /\
  reticle st' = reticle st /\
  fresh st' = fresh st + 4.
Proof.
  intros Hs Hos st'.
  destruct (skeleton_group_scene parts st Hs)
    as (Hgroup & Hscene & Hmod & Hlookup & [og Hog]).
  destruct (replaceWithSkeleton_frame parts st) as (Hscene' & Hreticle & Hfresh).
  subst st'. split.
  { by rewrite replaceWithSkeleton_eq, model_attach_model, Hgroup. }
  split.
  { assert (Hd : scene (detach_model (skeleton_group parts st).2) = scene st)
      by (by rewrite scene_detach_model).
    assert (Hne : (skeleton_group parts st).1 <>
                  scene (detach_model (skeleton_group parts st).2))
      by (rewrite Hd, Hgroup; lia).
    pose proof (lookup_attach_model_scene _ _ Hne) as Hl.
    rewrite <- replaceWithSkeleton_eq, Hd in Hl.
    unfold scene_children. rewrite Hscene', Hl.
    unfold detach_model, remove. rewrite Hmod.
    destruct (model st) as [old|].
    - rewrite Hscene, lookup_update_eq, Hlookup, Hos.
      cbn [fmap option_fmap option_map children set_children]. by rewrite Hgroup.
    - rewrite Hlookup, Hos.
      cbn [fmap option_fmap option_map children set_children]. by rewrite Hgroup. }
  split; [intros r Hr Hne; by apply replaceWithSkeleton_keeps |].
  split; [apply replaceWithSkeleton_frameRequests |].
  split; [exact Hreticle | exact Hfresh].
Qed.

Lemma replaceWithSkeleton_any_scene_witness :
  let st := set_model None setupScene in
  let os := set_children [1; 2; 3] (new_Object3D Scene) in
  let st' := replaceWithSkeleton Scenario.parts st in
  model st = None /\
  model st' = Some (fresh st + 3) /\
  scene_children st' =
    match model st with
    | Some old => splice_out old (children os)
    | None => children os
    end ++ [fresh st + 3] /\
  (forall r, r < fresh st -> r <> scene st -> objects st' !! r = objects st !! r) /\
  frameRequests st' = frameRequests st /\
  reticle st' = reticle st /\
  fresh st' = fresh st + 4.
Proof.
  split; [reflexivity |].
  apply (replaceWithSkeleton_any_scene Scenario.parts (set_model None setupScene)
           (set_children [1; 2; 3] (new_Object3D Scene))).
  - cbn; lia.
  - vm_compute; reflexivity.
Defined.

(** ** initAR: which model the session starts with *)

Lemma model_object_setupScene :
  model_object setupScene = Some (set_visible false (new_Object3D stand_in)).
Proof. reflexivity. Qed.

Lemma model_object_replaceWithSkeleton (parts : Parts) (st : App) :
  scene st < fresh st ->
  model_object (replaceWithSkeleton parts st) =
  Some (set_visible false (set_children
          [fresh st; fresh st + 1; fresh st + 2] (new_Object3D Group))).
Proof.
  intros Hs. destruct (skeleton_objects parts st Hs) as (Hm & Hg & _).
  unfold model_object. rewrite Hm. cbn [mbind option_bind]. exact Hg.
Qed.

(** X7.  What [initAR] leaves behind, whatever the drawing: the reticle and the
    model are hidden and nothing is animated; the model is the group of a
    rig exactly when OpenCV was ready and the extraction returned parts,
    and the stand-in box otherwise (OpenCV not ready, an exception, or the
    empty result). *)
Theorem initAR_model {image mat contour : Type} (cvReady : bool)
    (cv : OpenCV image mat contour) (uploadedImage : ImageElement image)
    (h : NativeHeap) :
  let st := (initAR cvReady cv uploadedImage h).1 in
  let extracted :=
    cvReady = true /\
    exists parts, (processDrawingImage cv uploadedImage h).1 = Normal (Some parts) in
  reticle_visible st = false /\
  visible <$> model_object st = Some false /\
  frameRequests st = [] /\
  (extracted -> kind <$> model_object st = Some Group) /\
  (~ extracted -> st = setupScene /\ kind <$> model_object st = Some stand_in).
Proof.
  unfold initAR.
  assert (Hs : scene setupScene < fresh setupScene) by (cbn; lia).
  assert (Hrig : forall parts,
            reticle_visible (replaceWithSkeleton parts setupScene) = false /\
            visible <$> model_object (replaceWithSkeleton parts setupScene) = Some false /\
            frameRequests (replaceWithSkeleton parts setupScene) = [] /\
            kind <$> model_object (replaceWithSkeleton parts setupScene) = Some Group).
  { intros parts. split.
    { unfold reticle_visible.
      destruct (replaceWithSkeleton_frame parts setupScene) as (_ & -> & _).
      change (reticle setupScene) with 2.
      by rewrite (replaceWithSkeleton_keeps parts setupScene 2 Hs)
        by (cbn; lia). }
    rewrite (model_object_replaceWithSkeleton parts setupScene Hs).
    by rewrite replaceWithSkeleton_frameRequests. }
  assert (Hbox : forall no : Prop, ~ no ->
            reticle_visible setupScene = false /\
            visible <$> model_object setupScene = Some false /\
            frameRequests setupScene = [] /\
            (no -> kind <$> model_object setupScene = Some Group) /\
            (~ no -> setupScene = setupScene /\
                     kind <$> model_object setupScene = Some stand_in)).
  { intros no Hno. split; [reflexivity |]. split; [reflexivity |].
    split; [reflexivity |]. split; [intros Hyes; by destruct Hno |].
    intros _. split; reflexivity. }
  destruct cvReady; [| apply Hbox; by intros ([=] & _)].
  destruct (processDrawingImage cv uploadedImage h) as [[[parts|]|c] h'];
    cbn [fst]; [| apply Hbox; by intros (_ & parts & [=]) ..].
  destruct (Hrig parts) as (H1 & H2 & H3 & H4).
  split; [exact H1 |]. split; [exact H2 |]. split; [exact H3 |].
  split; [intros _; exact H4 |].
  intros Hno. destruct Hno. split; [reflexivity | by exists parts].
Qed.

(** X8.  With OpenCV ready, an image of non-zero size and no exception, the
    session starts with the rig of the first contour of greatest positive
    area, and with the stand-in box when no contour has positive area.
    The native heap has grown by one handle per contour found: the seven
    buffers are released, the matrices of [contours.get(i)] are not. *)
Theorem initAR_quiet {image mat contour : Type}
    (cv : OpenCV image mat contour) (uploadedImage : ImageElement image)
    (h : NativeHeap) :
  sized uploadedImage ->
  (forall c, cv_throws cv c = false) ->
  let found := outer_boundaries cv uploadedImage in
  let st := (initAR true cv uploadedImage h).1 in
  (initAR true cv uploadedImage h).2 = contour_handles (length found) ++ h /\
  ((Forall (fun c => (cv_contourArea cv c <= 0)%Q) found /\ st = setupScene) \/
   (exists c,
      first_largest_above cv 0 found c /\
      st = replaceWithSkeleton
             (partition (cv_boundingRect cv c)
                (img_width uploadedImage) (img_height uploadedImage))
             setupScene)).
Proof.
  intros Hsized Hq found st. subst st. unfold initAR.
  destruct (processDrawingImage_quiet cv uploadedImage h Hsized Hq) as (sel & -> & Hsel).
  destruct Hsel as [[-> Hall] | (c & -> & Hc)]; cbn [parts_of fst snd].
  - split; [reflexivity |]. left. by split.
  - split; [reflexivity |]. right. exists c. by split.
Qed.

(** The blob, on a heap that holds a buffer of an earlier call. *)
Lemma initAR_quiet_witness :
  let cv := Polygons.cv Polygons.quiet in
  let found := outer_boundaries cv Polygons.blob in
  let st := (initAR true cv Polygons.blob [src]).1 in
  sized Polygons.blob /\
  (initAR true cv Polygons.blob [src]).2 = contour_handles (length found) ++ [src] /\
  ((Forall (fun c => (cv_contourArea cv c <= 0)%Q) found /\ st = setupScene) \/
   (exists c,
      first_largest_above cv 0 found c /\
      st = replaceWithSkeleton
             (partition (cv_boundingRect cv c)
                (img_width Polygons.blob) (img_height Polygons.blob))
             setupScene)).
Proof.
  assert (Hsized : sized Polygons.blob) by (split; discriminate).
  split; [exact Hsized |].
  exact (initAR_quiet (Polygons.cv Polygons.quiet) Polygons.blob [src]
           Hsized (fun c => eq_refl)).
Defined.

(** ** What the handlers leave alone *)

Lemma lookup_update_fmap {A : Type} (g : Object3D -> A) (r k : Ref)
    (f : Object3D -> Object3D) (st : App) :
  (forall o, g (f o) = g o) ->
  g <$> objects (update r f st) !! k = g <$> objects st !! k.
Proof.
  intros Hg. destruct (decide (r = k)) as [-> | Hne].
  - rewrite lookup_update_eq. destruct (objects st !! k); cbn; [by rewrite Hg | done].
  - by rewrite lookup_update_ne.
Qed.

Lemma only_object_refl (r : Ref) (keep : Object3D -> Object3D -> Prop) (st : App) :
  (forall o, keep o o) -> only_object r keep st st.
Proof.
  intros Hk. repeat split; try done. intros o Ho. exists o. by split.
Qed.

Lemma only_object_update (r : Ref) (keep : Object3D -> Object3D -> Prop)
    (f : Object3D -> Object3D) (st st' : App) :
  (forall o o', keep o o' -> keep o (f o')) ->
  only_object r keep st st' -> only_object r keep st (update r f st').
Proof.
  intros Hk (Hs & Hr & Hm & Hf & Hne & Heq & Hnone).
  split; [exact Hs |]. split; [exact Hr |]. split; [exact Hm |].
  split; [exact Hf |]. split; [| split].
  - intros k Hk'. rewrite lookup_update_ne by done. by apply Hne.
  - intros o Ho. destruct (Heq o Ho) as (o' & Ho' & Hkeep).
    exists (f o'). rewrite lookup_update_eq, Ho'. split; [done | by apply Hk].
  - intros Ho. by rewrite lookup_update_eq, (Hnone Ho).
Qed.

(** X11.  The render callback changes no variable and no pending animation,
    creates and removes no object, and writes no field of any object but
    [matrix] (the reticle's, line 197; every other [matrix] is left to
    [renderer.render]) and the reticle's [visible]: kind, position,
    rotation, scale, [matrixAutoUpdate] and children of every object, and
    [visible] of every object but the reticle, are as before. *)
Theorem animationLoop_only_reticle (frame : option XRFrame) (st : App) :
  let st' := animationLoop frame st in
  scene st' = scene st /\ reticle st' = reticle st /\ model st' = model st /\
  fresh st' = fresh st /\ frameRequests st' = frameRequests st /\
  (forall r, objects st !! r = None -> objects st' !! r = None) /\
  (forall r o, objects st !! r = Some o ->
     exists o', objects st' !! r = Some o' /\
                kind o' = kind o /\ position o' = position o /\
                rotation o' = rotation o /\ scale o' = scale o /\
                matrixAutoUpdate o' = matrixAutoUpdate o /\
                children o' = children o /\
                (r <> reticle st -> visible o' = visible o)).
Proof.
  assert (Hrefl : only_object (reticle st) up_to_visible_matrix st st)
    by (apply only_object_refl; by intros []).
  assert (H : only_object (reticle st) up_to_visible_matrix st (animationLoop frame st) /\
              frameRequests (animationLoop frame st) = frameRequests st).
  { unfold animationLoop.
    destruct frame as [frame|]; [| by split].
    destruct (getHitTestResults frame) as [[|result0 rest]|].
    - split; [| done]. apply only_object_update; [| exact Hrefl].
      intros [] [] [=]; by subst.
    - destruct (getPose result0) as [pose|]; [| by split].
      split; [| done].
      change (reticle (update (reticle st) (set_visible true) st)) with (reticle st).
      do 2 (apply only_object_update; [intros [] [] [=]; by subst |]).
      exact Hrefl.
    - split; [| done]. apply only_object_update; [| exact Hrefl].
      intros [] [] [=]; by subst. }
  destruct H as ((Hs & Hr & Hm & Hf & Hne & Heq & Hnone) & Hq).
  do 5 (split; [assumption |]).
  split.
  { intros r Hr0. destruct (decide (r = reticle st)) as [-> | Hr'];
      [by apply Hnone | by rewrite Hne]. }
  intros r o Ho. destruct (decide (r = reticle st)) as [-> | Hr'].
  - destruct (Heq o Ho) as (o' & Ho' & Hkeep). exists o'. split; [exact Ho' |].
    unfold up_to_visible_matrix in Hkeep. destruct o, o'. cbn in *.
    injection Hkeep; intros; subst. by repeat split.
  - exists o. rewrite Hne by done. by repeat split.
Qed.

(** X12.  The click handler writes visibility, position, yaw and scale of the
    model and queues at most one animation callback; every other object,
    the reticle included, and every other field of the model are as
    before. *)
Theorem click_only_model (random now : Q) (st : App) :
  let st' := click random now st in
  scene st' = scene st /\ reticle st' = reticle st /\ model st' = model st /\
  fresh st' = fresh st /\
  (forall r, model st <> Some r -> objects st' !! r = objects st !! r) /\
  (forall m o, model st = Some m -> objects st !! m = Some o ->
     exists o', objects st' !! m = Some o' /\
                set_scale (scale o)
                  (set_rotation_y (Vector3.y (rotation o))
                     (set_position (position o) (set_visible (visible o) o'))) = o) /\
  (frameRequests st' = frameRequests st \/
   exists m, model st = Some m /\ reticle_visible st = true /\
             frameRequests st' = frameRequests st ++ [mkPopIn m now]).
Proof.
  unfold click. destruct (model st) as [m|] eqn:Hm.
  2: { do 5 (split; [done |]). split; [intros ? ? [=] | by left]. }
  assert (Hrefl : only_object m up_to_placement st st)
    by (apply only_object_refl; by intros [? ? ? [] ? ? ? ?]).
  destruct (reticle_visible st) eqn:Hvis.
  2: { destruct Hrefl as (Hs & Hr & _ & Hf & Hne & Heq & _).
       do 5 (split; [done |]). split; [| by left].
       intros m' o [= <-] Ho. exact (Heq o Ho). }
  assert (H : only_object m up_to_placement st
                (update m (set_scale (Vector3.set 0.001 0.001 0.001))
                   (update m (set_rotation_y (random * Js.Math_PI * 2))
                      (update m (set_position
                                   (Matrix4.position
                                      (reticle_matrix (update m (set_visible true) st))))
                         (update m (set_visible true) st))))).
  { do 4 (apply only_object_update;
          [intros [? ? ? [] ? ? ? ?] [? ? ? [] ? ? ? ?] [=]; by subst |]).
    exact Hrefl. }
  destruct H as (Hs & Hr & Hm' & Hf & Hne & Heq & _).
  unfold popIn, requestAnimationFrame.
  split; [exact Hs |]. split; [exact Hr |]. split; [by rewrite <- Hm |].
  split; [exact Hf |]. split; [| split].
  - intros r Hr'. apply Hne. congruence.
  - intros m' o [= <-] Ho. exact (Heq o Ho).
  - right. exists m. repeat split.
Qed.

(** ** Animation frames *)

Lemma only_scales_refl (st : App) : only_scales st st.
Proof.
  repeat split. intros k. destruct (objects st !! k) as [[]|]; done.
Qed.

Lemma only_scales_frameRequests (q : list PopIn) (st st' : App) :
  only_scales st st' -> only_scales st (set_frameRequests q st').
Proof. intros H. exact H. Qed.

Lemma only_scales_step (a : PopIn) (t : Q) (st st' : App) :
  only_scales st st' -> only_scales st (step a t st').
Proof.
  intros (Hs & Hr & Hm & Hf & Hobj). unfold step.
  assert (H : only_scales st
                (update (mesh a)
                   (set_scale (Vector3.set (step_scale (start a) t)
                      (step_scale (start a) t) (step_scale (start a) t))) st')).
  { repeat split; try assumption. intros k. specialize (Hobj k).
    destruct (decide (mesh a = k)) as [<- | Hne].
    - rewrite lookup_update_eq.
      destruct (objects st !! mesh a) as [[]|], (objects st' !! mesh a) as [[]|];
        cbn in *; try done; unfold up_to_scale in *; cbn in *; congruence.
    - by rewrite lookup_update_ne. }
  destruct (step_again (start a) t); [| exact H].
  by apply only_scales_frameRequests.
Qed.

Lemma steps_effect (t : Q) (q : list PopIn) (st0 st : App) :
  only_scales st0 st ->
  let st' := fold_left (fun st a => step a t st) q st in
  only_scales st0 st' /\
  frameRequests st' =
    frameRequests st ++ List.filter (fun a => step_again (start a) t) q.
Proof.
  revert st. induction q as [|a q IH]; intros st H; cbn [fold_left List.filter].
  - split; [exact H | by rewrite app_nil_r].
  - destruct (IH (step a t st) (only_scales_step a t st0 st H)) as (H1 & H2).
    split; [exact H1 |]. rewrite H2. unfold step.
    destruct (step_again (start a) t); [| reflexivity].
    unfold requestAnimationFrame. cbn [frameRequests set_frameRequests update set_objects].
    by rewrite <- app_assoc.
Qed.

(** X16.  One animation frame changes nothing but scales, and leaves waiting
    exactly the callbacks whose animation has not run its duration, in
    their order. *)
Theorem animationFrame_effect (t : Q) (st : App) :
  let st' := animationFrame t st in
  frameRequests st' =
    List.filter (fun a => step_again (start a) t) (frameRequests st) /\
  scene st' = scene st /\ reticle st' = reticle st /\ model st' = model st /\
  fresh st' = fresh st /\
  forall k, match objects st !! k, objects st' !! k with
            | Some o, Some o' => set_scale (scale o) o' = o
            | None, None => True
            | _, _ => False
            end.
Proof.
  unfold animationFrame.
  destruct (steps_effect t (frameRequests st) st (set_frameRequests [] st)
              (only_scales_frameRequests [] st st (only_scales_refl st)))
    as ((Hs & Hr & Hm & Hf & Hobj) & Hq).
  split; [exact Hq |]. repeat split; assumption.
Qed.

(** X17.  When several animations run on one mesh (a click during a pop-in does
    not cancel it), the callback queued last decides the scale the mesh has
    after the frame: its three components are the value that callback
    computes, and the other fields of the mesh are as before. *)
Theorem animationFrame_last_wins (t : Q) (st : App) (q : list PopIn) (a : PopIn)
    (o : Object3D) :
  frameRequests st = q ++ [a] ->
  objects st !! mesh a = Some o ->
  let s := step_scale (start a) t in
  objects (animationFrame t st) !! mesh a =
    Some {| kind := kind o;
            visible := visible o;
            position := position o;
            rotation := rotation o;
            scale := Vector3.mk s s s;
            matrix := matrix o;
            matrixAutoUpdate := matrixAutoUpdate o;
            children := children o |}.
Proof.
  intros Hq Ho s. unfold animationFrame. rewrite Hq, fold_left_app. cbn [fold_left].
  destruct (steps_effect t q st (set_frameRequests [] st)
              (only_scales_frameRequests [] st st (only_scales_refl st)))
    as ((_ & _ & _ & _ & Hobj) & _).
  specialize (Hobj (mesh a)). rewrite Ho in Hobj.
  destruct (objects (fold_left _ q _) !! mesh a) as [o1|] eqn:E; [| done].
  assert (Hstep : forall st1, objects st1 !! mesh a = Some o1 ->
            objects (step a t st1) !! mesh a = Some (set_scale (Vector3.mk s s s) o1)).
  { intros st1 H1. unfold step.
    destruct (step_again (start a) t); cbn -[update];
      by rewrite lookup_update_eq, H1. }
  rewrite (Hstep _ E). unfold up_to_scale in Hobj.
  destruct o as [k v p r sc mx au ch], o1 as [k1 v1 p1 r1 sc1 mx1 au1 ch1].
  unfold set_scale in Hobj. cbn in Hobj. inversion Hobj; subst. reflexivity.
Qed.

(** A second click 100 ms after the first: at the frame of time 1110 both
    animations tick, and the group has the scale of the one started last,
    not the 0.875125 of the first. *)
Lemma animationFrame_last_wins_witness :
  let st := click (1 # 2) 1100 Scenario.placed in
  let a := mkPopIn 7 1100 in
  let group :=
    {| kind := Group;
       visible := true;
       position := Vector3.mk 1 0 (-2);
       rotation := Vector3.mk 0 ((1 # 2) * Js.Math_PI * 2) 0;
       scale := Vector3.mk 0.001 0.001 0.001;
       matrix := Matrix4.identity;
       matrixAutoUpdate := true;
       children := [4; 5; 6] |} in
  frameRequests st = [mkPopIn 7 1000] ++ [a] /\
  objects st !! mesh a = Some group /\
  let s := step_scale 1100 1110 in
  (s < 0.875125)%Q /\
  objects (animationFrame 1110 st) !! mesh a =
    Some {| kind := Group;
            visible := true;
            position := Vector3.mk 1 0 (-2);
            rotation := Vector3.mk 0 ((1 # 2) * Js.Math_PI * 2) 0;
            scale := Vector3.mk s s s;
            matrix := Matrix4.identity;
            matrixAutoUpdate := true;
            children := [4; 5; 6] |}.
Proof.
  intros st a group.
  split; [vm_compute; reflexivity |]. split; [vm_compute; reflexivity |].
  split; [vm_compute; reflexivity |].
  apply (animationFrame_last_wins 1110 st [mkPopIn 7 1000] a group);
    vm_compute; reflexivity.
Defined.

(** ** The shape of the ease-out curve *)

Lemma cube_le (a b : Q) : (a <= b)%Q -> (a ^ 3 <= b ^ 3)%Q.
Proof.
  intros Hab.
  assert (H3 : forall c : Q, (c ^ 3 == c * c * c)%Q) by (intros c; ring).
  rewrite !H3.
  assert (Hq : (0 <= a * a + a * b + b * b)%Q) by nra.
  assert (Hd : (0 <= b - a)%Q) by lra.
  assert (Hp : (0 <= (b - a) * (a * a + a * b + b * b))%Q)
    by (by apply Qmult_le_0_compat).
  lra.
Qed.

Lemma progress_mono (start t1 t2 : Q) :
  (t1 <= t2)%Q ->
  (Js.Math_min 1 ((t1 - start) / dur) <= Js.Math_min 1 ((t2 - start) / dur))%Q.
Proof.
  intros Hle. unfold Js.Math_min. apply Q.min_le_compat_l.
  unfold Qdiv. apply Qmult_le_compat_r; [lra | discriminate].
Qed.

Lemma progress_le_1 (start t : Q) : (Js.Math_min 1 ((t - start) / dur) <= 1)%Q.
Proof. apply Q.le_min_l. Qed.

Lemma step_scale_eq (start t : Q) :
  (step_scale start t ==
   0.001 + 0.999 * (1 - (1 - Js.Math_min 1 ((t - start) / dur)) ^ 3))%Q.
Proof. unfold step_scale, Js.Math_pow, target_s. ring. Qed.

(** X18.  The scale a tick applies never decreases with the time of the tick and
    never exceeds 1. *)
Theorem step_scale_monotone (start t1 t2 : Q) :
  (t1 <= t2)%Q ->
  (step_scale start t1 <= step_scale start t2)%Q /\ (step_scale start t2 <= 1)%Q.
Proof.
  intros Hle. rewrite !step_scale_eq.
  pose proof (progress_mono start t1 t2 Hle) as He.
  pose proof (progress_le_1 start t2) as H1.
  set (e1 := Js.Math_min 1 ((t1 - start) / dur)) in *.
  set (e2 := Js.Math_min 1 ((t2 - start) / dur)) in *.
  assert (Hc : ((1 - e2) ^ 3 <= (1 - e1) ^ 3)%Q) by (apply cube_le; lra).
  assert (H0 : (0 <= (1 - e2) ^ 3)%Q).
  { assert (Hz : (0 ^ 3 <= (1 - e2) ^ 3)%Q) by (apply cube_le; lra).
    exact Hz. }
  split; lra.
Qed.

Lemma step_scale_monotone_witness :
  (1016 <= 1110)%Q /\
  (step_scale 1000 1016 <= step_scale 1000 1110)%Q /\ (step_scale 1000 1110 <= 1)%Q.
Proof.
  split; [discriminate |].
  apply (step_scale_monotone 1000 1016 1110). discriminate.
Defined.

(** X19.  The scale is at least the seed 0.001 exactly when the tick is not
    earlier than the start of the animation; a tick a millisecond or more
    before the start applies a negative scale, and asks for another frame. *)
Theorem step_scale_seed (start t : Q) :
  ((0.001 <= step_scale start t)%Q <-> (start <= t)%Q) /\
  ((t <= start - 1)%Q -> (step_scale start t < 0)%Q /\ step_again start t = true).
Proof.
  assert (Hneg : (t < start)%Q ->
                 (Js.Math_min 1 ((t - start) / dur) == (t - start) / dur)%Q /\
                 ((t - start) / dur < 0)%Q).
  { intros Hlt.
    assert (Hx : ((t - start) / dur < 0)%Q).
    { apply Qlt_shift_div_r; [exact dur_positive | lra]. }
    split; [| exact Hx]. unfold Js.Math_min. apply Q.min_r. lra. }
  split; [split |].
  - intros Hs. destruct (Qlt_le_dec t start) as [Hlt | Hle]; [| exact Hle].
    exfalso. destruct (Hneg Hlt) as [He Hx].
    rewrite step_scale_eq, He in Hs.
    set (x := ((t - start) / dur)%Q) in *.
    assert (H3 : ((1 - x) ^ 3 == (1 - x) * (1 - x) * (1 - x))%Q) by ring.
    rewrite H3 in Hs.
    assert (Hu : (1 < (1 - x) * (1 - x))%Q) by nra.
    assert (Hu3 : (1 < (1 - x) * (1 - x) * (1 - x))%Q) by nra.
    lra.
  - intros Hle. rewrite step_scale_eq.
    assert (He : (0 <= Js.Math_min 1 ((t - start) / dur))%Q).
    { unfold Js.Math_min. apply Q.min_glb; [discriminate |].
      apply Qle_shift_div_l; [exact dur_positive | lra]. }
    set (e := Js.Math_min 1 ((t - start) / dur)) in *.
    assert (Hc : ((1 - e) ^ 3 <= 1 ^ 3)%Q) by (apply cube_le; lra).
    assert (H1 : (1 ^ 3 == 1)%Q) by reflexivity.
    lra.
  - intros Hle. assert (Hlt : (t < start)%Q) by lra.
    destruct (Hneg Hlt) as [He Hx]. split.
    + rewrite step_scale_eq, He.
      assert (Hx1 : ((t - start) / dur <= - (1 # 220))%Q).
      { apply Qle_shift_div_r; [exact dur_positive |]. unfold dur. lra. }
      set (x := ((t - start) / dur)%Q) in *.
      assert (Hc : ((221 # 220) ^ 3 <= (1 - x) ^ 3)%Q) by (apply cube_le; lra).
      assert (Hv : ((221 # 220) ^ 3 == 10793861 # 10648000)%Q) by reflexivity.
      lra.
    + unfold step_again. apply lt_true. rewrite He. lra.
Qed.

(** ** The model across a session *)

Lemma model_object_update (r : Ref) (f : Object3D -> Object3D) (st : App) (m : Ref) :
  model st = Some m ->
  model_object (update r f st) =
  if decide (r = m) then f <$> model_object st else model_object st.
Proof.
  intros Hm. unfold model_object. cbn [model update set_objects].
  rewrite Hm. cbn [mbind option_bind].
  change (alter f r (objects st)) with (objects (update r f st)).
  case_decide as Hr; [subst r; apply lookup_update_eq | by apply lookup_update_ne].
Qed.

Lemma model_visible_update (r : Ref) (f : Object3D -> Object3D) (st : App) :
  (forall o, visible (f o) = visible o) ->
  visible <$> model_object (update r f st) = visible <$> model_object st.
Proof.
  intros Hf. unfold model_object. cbn [model update set_objects].
  destruct (model st) as [m|]; [| done]. cbn [mbind option_bind].
  change (alter f r (objects st)) with (objects (update r f st)).
  by apply lookup_update_fmap.
Qed.

Lemma model_visible_step (a : PopIn) (t : Q) (st : App) :
  visible <$> model_object (step a t st) = visible <$> model_object st.
Proof.
  unfold step. destruct (step_again (start a) t);
    [unfold requestAnimationFrame |]; by apply model_visible_update.
Qed.

Lemma model_visible_animationFrame (t : Q) (st : App) :
  visible <$> model_object (animationFrame t st) = visible <$> model_object st.
Proof.
  unfold animationFrame.
  change (visible <$> model_object st)
    with (visible <$> model_object (set_frameRequests [] st)).
  generalize (set_frameRequests [] st).
  induction (frameRequests st) as [|a q IH]; intros st0; [done |].
  cbn [fold_left]. by rewrite IH, model_visible_step.
Qed.

Lemma model_visible_animationLoop (frame : option XRFrame) (st : App) :
  session_state st ->
  visible <$> model_object (animationLoop frame st) = visible <$> model_object st.
Proof.
  intros (_ & Hr & _ & m & Hm & Hlt & _).
  assert (Hne : forall f st0, model st0 = Some m -> reticle st0 = 2 ->
                  model_object (update (reticle st0) f st0) = model_object st0).
  { intros f st0 Hm0 Hr0. rewrite (model_object_update _ f st0 m Hm0).
    case_decide; [lia | done]. }
  unfold animationLoop. destruct frame as [frame|]; [| done].
  destruct (getHitTestResults frame) as [[|result0 rest]|]; [by rewrite Hne | | by rewrite Hne].
  destruct (getPose result0); [| done].
  rewrite Hne; [by rewrite Hne | exact Hm | exact Hr].
Qed.

Lemma model_visible_click (random now : Q) (st : App) :
  session_state st ->
  visible <$> model_object (click random now st) =
  if reticle_visible st then Some true else visible <$> model_object st.
Proof.
  intros (_ & _ & _ & m & Hm & _ & [o Ho] & _).
  unfold click. rewrite Hm. destruct (reticle_visible st); [| done].
  unfold popIn, requestAnimationFrame.
  change (model_object (set_frameRequests ?q ?s)) with (model_object s).
  do 3 (rewrite model_visible_update by done).
  rewrite (model_object_update m _ st m Hm). case_decide; [| done].
  unfold model_object. rewrite Hm. cbn [mbind option_bind]. by rewrite Ho.
Qed.

(** What one event does to the visibility of the model. *)
Lemma model_visible_dispatch (st : App) (ev : Event) :
  session_state st ->
  visible <$> model_object (dispatch st ev) =
  match ev with
  | ClickEvent _ _ =>
      if reticle_visible st then Some true else visible <$> model_object st
  | _ => visible <$> model_object st
  end.
Proof.
  intros H. destruct ev; cbn [dispatch].
  - by apply model_visible_animationLoop.
  - by apply model_visible_click.
  - apply model_visible_animationFrame.
Qed.

Lemma model_dispatch (st : App) (ev : Event) : model (dispatch st ev) = model st.
Proof.
  destruct ev; cbn [dispatch].
  - unfold animationLoop. destruct frame as [frame|]; [| done].
    destruct (getHitTestResults frame) as [[|result0 rest]|]; try done.
    by destruct (getPose result0).
  - unfold click. destruct (model st) eqn:Hm; [| exact Hm].
    destruct (reticle_visible st); exact Hm.
  - unfold animationFrame.
    by destruct (steps_effect t (frameRequests st) st (set_frameRequests [] st)
                   (only_scales_frameRequests [] st st (only_scales_refl st)))
      as ((_ & _ & Hm & _) & _).
Qed.

(** X15.  In any session the object [model] addresses is fixed by [initAR], and
    once it is visible it stays visible: no event hides it. *)
Theorem session_model_stays_visible {image mat contour : Type} (cvReady : bool)
    (cv : OpenCV image mat contour) (uploadedImage : ImageElement image)
    (h : NativeHeap) (before after : list Event) :
  let st0 := (initAR cvReady cv uploadedImage h).1 in
  let st1 := run before st0 in
  let st2 := run after st1 in
  model st2 = model st0 /\
  (visible <$> model_object st1 = Some true ->
   visible <$> model_object st2 = Some true).
Proof.
  intros st0 st1 st2.
  assert (Hmodel : forall evs st, model (run evs st) = model st).
  { unfold run. induction evs as [|ev evs IH]; intros st; [done |].
    cbn [fold_left]. by rewrite IH, model_dispatch. }
  split; [subst st2 st1; by rewrite !Hmodel |].
  assert (H1 : session_state st1)
    by apply session_state_run, session_state_initAR.
  subst st2. revert H1. generalize st1. unfold run.
  induction after as [|ev evs IH]; intros st H Hv; [exact Hv |].
  cbn [fold_left]. apply IH.
  - destruct ev; cbn [dispatch];
      [by apply session_state_animationLoop | by apply session_state_click
      | by apply session_state_animationFrame].
  - rewrite (model_visible_dispatch st ev H).
    destruct ev; try exact Hv. by destruct (reticle_visible st).
Qed.

(** X14.  The model becomes visible by a click while the reticle is visible, and
    by nothing else. *)
Theorem model_shown_only_by_click (st : App) (ev : Event) :
  session_state st ->
  visible <$> model_object st = Some false ->
  visible <$> model_object (dispatch st ev) = Some true ->
  reticle_visible st = true /\ exists random now, ev = ClickEvent random now.
Proof.
  intros H Hhidden Hshown. rewrite (model_visible_dispatch st ev H) in Hshown.
  destruct ev as [frame | random now | t]; [congruence | | congruence].
  destruct (reticle_visible st); [| congruence].
  split; [reflexivity | by exists random, now].
Qed.

Lemma model_shown_only_by_click_witness :
  visible <$> model_object Scenario.aimed = Some false /\
  visible <$> model_object (dispatch Scenario.aimed (ClickEvent (1 # 2) 1000)) = Some true /\
  reticle_visible Scenario.aimed = true /\
  exists random now, ClickEvent (1 # 2) 1000 = ClickEvent random now.
Proof.
  split; [vm_compute; reflexivity |]. split; [vm_compute; reflexivity |].
  apply (model_shown_only_by_click Scenario.aimed (ClickEvent (1 # 2) 1000)).
  - apply session_state_animationLoop.
    exact (session_state_initAR true (Polygons.cv Polygons.quiet) Polygons.blob []).
  - vm_compute; reflexivity.
  - vm_compute; reflexivity.
Defined.

(** ** From a hit to a placed model *)

Lemma nth_take (k n : nat) (l : list Q) (d : Q) :
  k < n -> nth k (take n l) d = nth k l d.
Proof.
  revert k n. induction l as [|q l IH]; intros k n Hk.
  - by destruct n, k.
  - destruct n as [|n]; [lia |]. destruct k as [|k]; [done |].
    cbn. apply IH. lia.
Qed.

Lemma click_model_object (random now : Q) (st : App) (m : Ref) (o : Object3D) :
  reticle_visible st = true ->
  model st = Some m ->
  objects st !! m = Some o ->
  model_object (click random now st) =
  Some (set_scale (Vector3.set 0.001 0.001 0.001)
          (set_rotation_y (random * Js.Math_PI * 2)
             (set_position (Matrix4.position (reticle_matrix st))
                (set_visible true o)))).
Proof.
  intros Hvis Hm Ho. unfold click. rewrite Hm, Hvis.
  rewrite reticle_matrix_set_visible.
  unfold popIn, requestAnimationFrame.
  change (model_object (set_frameRequests ?q ?s)) with (model_object s).
  assert (Hself : forall f s, model s = Some m ->
            model_object (update m f s) = f <$> model_object s).
  { intros f s Hs. rewrite (model_object_update m f s m Hs). by case_decide. }
  rewrite !Hself by exact Hm.
  unfold model_object. rewrite Hm. cbn [mbind option_bind]. by rewrite Ho.
Qed.

(** X13.  A frame whose first hit resolves, followed by a click: the model is
    visible at the translation of that pose (entries 12, 13 and 14 of its
    matrix), whatever the other hits of the frame and whatever the reticle
    showed before. *)
Theorem hit_then_click_places_at_pose (st : App) (frame : XRFrame)
    (result0 : XRHitTestResult) (rest : list XRHitTestResult) (pose : XRPose)
    (random now : Q) :
  session_state st ->
  getHitTestResults frame = Some (result0 :: rest) ->
  getPose result0 = Some pose ->
  let st' := click random now (animationLoop (Some frame) st) in
  let M := transform_matrix pose in
  visible <$> model_object st' = Some true /\
  position <$> model_object st' =
    Some (Vector3.mk (nth 12 M 0%Q) (nth 13 M 0%Q) (nth 14 M 0%Q)).
Proof.
  intros H Hres Hpose st' M.
  pose proof (session_state_animationLoop (Some frame) st H) as H'.
  destruct H as (_ & Hr & [oret Hret] & _).
  pose proof (resolved_pose_shows_reticle frame st oret result0 rest pose
                Hres Hpose Hret) as Haim.
  cbv zeta in Haim.
  set (aimed := animationLoop (Some frame) st) in *.
  destruct H' as (_ & _ & _ & m & Hm & _ & [o Ho] & _).
  assert (Hvis : reticle_visible aimed = true)
    by (unfold reticle_visible; by rewrite Haim).
  assert (Hmat : reticle_matrix aimed = Matrix4.fromArray M)
    by (unfold reticle_matrix; by rewrite Haim).
  subst st'. rewrite (click_model_object random now aimed m o Hvis Hm Ho), Hmat.
  split; [reflexivity |].
  cbn [fmap option_fmap option_map position set_scale set_rotation_y set_position].
  unfold Matrix4.position, Matrix4.fromArray.
  by rewrite !nth_take by lia.
Qed.

Lemma hit_then_click_places_at_pose_witness :
  let st' := click (1 # 2) 1000 (animationLoop (Some Scenario.hit) Scenario.started) in
  let M := transform_matrix Scenario.pose in
  visible <$> model_object st' = Some true /\
  position <$> model_object st' =
    Some (Vector3.mk (nth 12 M 0%Q) (nth 13 M 0%Q) (nth 14 M 0%Q)).
Proof.
  apply (hit_then_click_places_at_pose Scenario.started Scenario.hit
           (mkXRHitTestResult (Some Scenario.pose)) [] Scenario.pose (1 # 2) 1000).
  - exact (session_state_initAR true (Polygons.cv Polygons.quiet) Polygons.blob []).
  - reflexivity.
  - reflexivity.
Defined.

(** ** The page *)

Section PageProperties.

Context {image mat contour : Type}.

Lemma consistent_showError (message : string) (p : Page.t image) :
  message <> EmptyString ->
  Page.consistent p -> Page.consistent (Page.showError message p).
Proof. intros Hm [Hb _]. split; [exact Hb |]. cbn. by split. Qed.

Lemma consistent_clearError (p : Page.t image) :
  Page.consistent p -> Page.consistent (Page.clearError p).
Proof. intros [Hb _]. split; [exact Hb |]. cbn. split; [discriminate | congruence]. Qed.

Lemma consistent_start_click (navigator : Page.Navigator) (p : Page.t image) :
  Page.consistent p -> Page.consistent (Page.start_click navigator p).1.
Proof.
  intros H. apply consistent_clearError in H. unfold Page.start_click.
  destruct (Page.uploadedImage (Page.clearError p));
    [| by apply consistent_showError].
  destruct (Page.xr navigator) as [[[answer|]]|];
    cbn -[Page.clearError Page.showError];
    [exact H | by apply consistent_showError ..].
Qed.

Lemma consistent_start_resume (answer : Page.Support) (cvReady : bool)
    (cv : OpenCV image mat contour) (granted : bool) (h : NativeHeap)
    (p : Page.t image) :
  Page.consistent p ->
  Page.consistent (Page.start_resume answer cvReady cv granted h p).1.1.
Proof.
  intros H. unfold Page.start_resume.
  destruct (negb _); [by apply consistent_showError |].
  destruct (Page.initAR_of _ _ _ _) as [app h'].
  destruct granted; [exact H | by apply consistent_showError].
Qed.

Lemma consistent_dispatch (cvReady : bool) (cv : OpenCV image mat contour)
    (h : NativeHeap) (p : Page.t image) (ev : Page.Event) :
  Page.consistent p -> Page.consistent (Page.dispatch cvReady cv h p ev).
Proof.
  intros H. destruct ev as [[[]|] | img | | navigator | answer granted];
    cbn [Page.dispatch].
  - by apply consistent_clearError.
  - split; cbn; [by split | split; [discriminate | congruence]].
  - destruct H as [_ He]. split; cbn; [split; discriminate | exact He].
  - apply consistent_showError; [discriminate |].
    destruct H as [_ He]. split; cbn; [by split | exact He].
  - by apply consistent_start_click.
  - by apply consistent_start_resume.
Qed.

(** X20.  Whatever happens on the page, in whatever order, the start button stays
    disabled exactly when no image is held and the banner is shown exactly
    when it has a text, provided the page started that way. *)
Theorem page_stays_consistent (cvReady : bool) (cv : OpenCV image mat contour)
    (h : NativeHeap) (evs : list Page.Event) (p : Page.t image) :
  Page.consistent p -> Page.consistent (Page.run cvReady cv h evs p).
Proof.
  unfold Page.run. revert p. induction evs as [|ev evs IH]; intros p H; [exact H |].
  cbn [fold_left]. apply IH. by apply consistent_dispatch.
Qed.

(** X21.  The start handler, run to its end.  The session starts exactly when an
    image is held, [navigator.xr] answers that [immersive-ar] is supported,
    and the session is granted; it then runs the application [initAR] built
    from that image, and no banner is shown.  In every other case one of the
    four messages is shown.  Image and button are never touched. *)
Theorem start_outcome (navigator : Page.Navigator) (cvReady : bool)
    (cv : OpenCV image mat contour) (granted : bool) (h : NativeHeap)
    (p : Page.t image) :
  let r := Page.start navigator cvReady cv granted h p in
  Page.uploadedImage r.1.1 = Page.uploadedImage p /\
  Page.startDisabled r.1.1 = Page.startDisabled p /\
  (forall app, r.1.2 = Some app <->
     exists img x,
       Page.uploadedImage p = Some img /\
       Page.xr navigator = Some x /\
       Page.isSessionSupported x = Some (Page.Resolves true) /\
       granted = true /\
       app = (initAR cvReady cv img h).1) /\
  (is_Some r.1.2 -> Page.errorShown r.1.1 = false /\ Page.errorText r.1.1 = EmptyString) /\
  (r.1.2 = None ->
     Page.errorShown r.1.1 = true /\
     Page.errorText r.1.1 ∈
       [Page.no_image; Page.no_webxr; Page.no_immersive_ar; Page.init_failed]).
Proof.
  assert (Hrefused : forall (message : string) (h' : NativeHeap),
    message ∈ [Page.no_image; Page.no_webxr; Page.no_immersive_ar; Page.init_failed] ->
    ~ (exists img x,
         Page.uploadedImage p = Some img /\
         Page.xr navigator = Some x /\
         Page.isSessionSupported x = Some (Page.Resolves true) /\
         granted = true) ->
    let r : Page.t image * option App * NativeHeap :=
      (Page.showError message (Page.clearError p), None, h') in
    Page.uploadedImage r.1.1 = Page.uploadedImage p /\
    Page.startDisabled r.1.1 = Page.startDisabled p /\
    (forall app, r.1.2 = Some app <->
       exists img x,
         Page.uploadedImage p = Some img /\
         Page.xr navigator = Some x /\
         Page.isSessionSupported x = Some (Page.Resolves true) /\
         granted = true /\
         app = (initAR cvReady cv img h).1) /\
    (is_Some r.1.2 -> Page.errorShown r.1.1 = false /\ Page.errorText r.1.1 = EmptyString) /\
    (r.1.2 = None ->
       Page.errorShown r.1.1 = true /\
       Page.errorText r.1.1 ∈
         [Page.no_image; Page.no_webxr; Page.no_immersive_ar; Page.init_failed])).
  { intros message h' Hmsg Hnot r. subst r. cbn [fst snd].
    split; [reflexivity |]. split; [reflexivity |].
    split.
    { intros app. split; [discriminate |].
      intros (img & x & H1 & H2 & H3 & H4 & _). destruct Hnot. by exists img, x. }
    split; [intros [? ?]; discriminate |].
    intros _. split; [reflexivity | exact Hmsg]. }
  remember (Page.start navigator cvReady cv granted h p) as r0 eqn:E.
  unfold Page.start, Page.start_click in E.
  change (Page.uploadedImage (Page.clearError p)) with (Page.uploadedImage p) in E.
  destruct (Page.uploadedImage p) as [img|] eqn:Hi.
  2:{ subst r0; apply Hrefused; [repeat constructor |].
      intros (img & x & H1 & _). congruence. }
  destruct (Page.xr navigator) as [[[[[]|]|]]|] eqn:Hx;
    cbn -[Page.clearError Page.showError initAR] in E.
  - unfold Page.start_resume in E.
    cbn -[Page.clearError Page.showError initAR] in E.
    change (Page.uploadedImage (Page.clearError p)) with (Page.uploadedImage p) in E.
    rewrite Hi in E. cbn -[Page.clearError Page.showError initAR] in E.
    destruct (initAR cvReady cv img h) as [app0 h0] eqn:Hinit.
    destruct granted.
    + intros r. subst r r0. cbn [fst snd].
      split; [exact Hi |]. split; [reflexivity |].
      split.
      { intros app. split.
        - intros [= <-]. exists img, (Page.mkXRSystem (Some (Page.Resolves true))).
          by rewrite Hinit.
        - intros (img' & x' & [= <-] & _ & _ & _ & ->). by rewrite Hinit. }
      split; [intros _; split; reflexivity |]. discriminate.
    + subst r0; apply Hrefused; [repeat constructor |].
      intros (img' & x' & _ & _ & _ & ?). discriminate.
  - subst r0; apply Hrefused; [repeat constructor |].
    intros (img' & x' & _ & [= <-] & ? & _). discriminate.
  - subst r0; apply Hrefused; [repeat constructor |].
    intros (img' & x' & _ & [= <-] & ? & _). discriminate.
  - subst r0; apply Hrefused; [repeat constructor |].
    intros (img' & x' & _ & [= <-] & ? & _). discriminate.
  - subst r0; apply Hrefused; [repeat constructor |].
    intros (img' & x' & _ & ? & _). discriminate.
Qed.

End PageProperties.

(** A page that starts without image and with the button disabled: a file
    is chosen and loads, the start button is clicked, and the session is
    granted. *)
Lemma page_stays_consistent_witness :
  let p : Page.t Polygons.image := Page.mk EmptyString false None true in
  let navigator :=
    Page.mkNavigator (Some (Page.mkXRSystem (Some (Page.Resolves true)))) in
  let evs := [Page.UploadChange (Some ()); Page.ImgLoad Polygons.blob;
              Page.StartClick navigator;
              Page.StartResume (Page.Resolves true) true] in
  Page.consistent p /\
  Page.consistent (Page.run true (Polygons.cv Polygons.quiet) [] evs p).
Proof.
  assert (H : Page.consistent
                (Page.mk (image := Polygons.image) EmptyString false None true)).
  { split; split; [reflexivity | reflexivity | discriminate |].
    intros Hne. by destruct Hne. }
  split; [exact H |].
  exact (page_stays_consistent true (Polygons.cv Polygons.quiet) []
           [Page.UploadChange (Some ()); Page.ImgLoad Polygons.blob;
            Page.StartClick
              (Page.mkNavigator (Some (Page.mkXRSystem (Some (Page.Resolves true)))));
            Page.StartResume (Page.Resolves true) true]
           (Page.mk EmptyString false None true) H).
Defined.

(** ** Waiting for OpenCV *)

Lemma tick_spec (polls : list OpenCvReady.CvGlobal) (n : nat) :
  match OpenCvReady.tick n polls with
  | OpenCvReady.ResolvedAtPoll k =>
      exists i, k = n + i /\ polls !! i = Some OpenCvReady.Loaded /\
                forall j, j < i -> polls !! j <> Some OpenCvReady.Loaded
  | OpenCvReady.Pending => OpenCvReady.Loaded ∉ polls
  | _ => False
  end.
Proof.
  revert n. induction polls as [|g polls IH]; intros n; cbn.
  - apply not_elem_of_nil.
  - assert (Hstep : g <> OpenCvReady.Loaded ->
      match OpenCvReady.tick (S n) polls with
      | OpenCvReady.ResolvedAtPoll k =>
          exists i, k = n + i /\ (g :: polls) !! i = Some OpenCvReady.Loaded /\
                    forall j, j < i -> (g :: polls) !! j <> Some OpenCvReady.Loaded
      | OpenCvReady.Pending => OpenCvReady.Loaded ∉ g :: polls
      | _ => False
      end).
    { intros Hg. specialize (IH (S n)).
      destruct (OpenCvReady.tick (S n) polls); try done.
      - destruct IH as (i & -> & Hi & Hbefore). exists (S i).
        split; [lia |]. split; [exact Hi |].
        intros [|j] Hj; cbn; [congruence | apply Hbefore; lia].
      - rewrite elem_of_cons. intros [? | ?]; [congruence | done]. }
    destruct g; try (apply Hstep; discriminate).
    exists 0. split; [lia |]. split; [reflexivity |]. intros j Hj. lia.
Qed.

(** X22.  The promise resolves, and [cvReady] becomes true, in exactly three
    cases: [cv.Mat] is there at the call; [cv] is there without [cv.Mat] and
    the runtime calls the hook; or [cv] is not defined at the call and some
    later poll finds [cv.Mat].  In the last case it resolves at the first
    such poll.  A [cv] that is there without [cv.Mat] is never polled: if
    the runtime does not call the hook, the promise stays pending whatever
    the later moments hold. *)
Theorem waitForOpenCVReady_resolves (now : OpenCvReady.CvGlobal)
    (polls : list OpenCvReady.CvGlobal) (hook_called : bool) :
  let outcome := OpenCvReady.waitForOpenCVReady now polls hook_called in
  (OpenCvReady.cvReady outcome = true <->
     now = OpenCvReady.Loaded \/
     (now = OpenCvReady.Loading /\ hook_called = true) \/
     (now = OpenCvReady.Undeclared /\ OpenCvReady.Loaded ∈ polls)) /\
  (forall n, outcome = OpenCvReady.ResolvedAtPoll n <->
     now = OpenCvReady.Undeclared /\
     exists i, n = S i /\ polls !! i = Some OpenCvReady.Loaded /\
               forall j, j < i -> polls !! j <> Some OpenCvReady.Loaded) /\
  (now = OpenCvReady.Loading -> hook_called = false ->
     outcome = OpenCvReady.Pending).
Proof.
  destruct now; cbn.
  - pose proof (tick_spec polls 1) as H.
    destruct (OpenCvReady.tick 1 polls) as [|k| | |] eqn:Ht; try done.
    + destruct H as (i & -> & Hi & Hbefore).
      split; [| split; [| done]].
      * split; [| done]. intros _. right. right. split; [done |].
        by apply list_elem_of_lookup_2 in Hi.
      * intros n. split.
        -- intros [= <-]. split; [done |]. by exists i.
        -- intros (_ & j & -> & Hj & Hjb). f_equal. cbn. f_equal.
           destruct (Nat.lt_trichotomy i j) as [Hlt | [-> | Hlt]]; [| done |].
           ++ by destruct (Hjb i Hlt).
           ++ by destruct (Hbefore j Hlt).
    + split; [| split; [| done]].
      * split; [done |]. intros [? | [[? _] | [_ Hin]]]; done.
      * intros n. split; [done |].
        intros (_ & j & _ & Hj & _). by apply list_elem_of_lookup_2 in Hj.
  - split; [| split; [| done]].
    + split; [done |]. intros [? | [[? _] | [? _]]]; done.
    + intros n. split; [done | by intros [? _]].
  - destruct hook_called; cbn.
    + split; [| split; [| done]].
      * split; [| done]. intros _. right. by left.
      * intros n. split; [done | by intros [? _]].
    + split; [| split; [| done]].
      * split; [done |]. intros [? | [[_ ?] | [? _]]]; done.
      * intros n. split; [done | by intros [? _]].
  - split; [| split; [| done]].
    + split; [| done]. intros _. by left.
    + intros n. split; [done | by intros [? _]].
Qed.

(** ** Renderer and camera *)

Lemma onWindowResize_defined (w h : Q) (r : Viewport.Renderer) (c : Viewport.Camera) :
  Viewport.onWindowResize w h (Viewport.mk (Some r) (Some c)) =
  Viewport.mk (Some (Viewport.mkRenderer (Viewport.pixelRatio r) w h))
              (Some (Viewport.mkCamera (w / h))).
Proof. reflexivity. Qed.

Lemma resizes_defined (sizes : list (Q * Q)) (pr w h : Q) :
  Viewport.resizes sizes
    (Viewport.mk (Some (Viewport.mkRenderer pr w h)) (Some (Viewport.mkCamera (w / h)))) =
  let size := default (w, h) (last sizes) in
  Viewport.mk (Some (Viewport.mkRenderer pr size.1 size.2))
              (Some (Viewport.mkCamera (size.1 / size.2))).
Proof.
  revert w h. induction sizes as [|[w' h'] sizes IH]; intros w h; [reflexivity |].
  unfold Viewport.resizes. cbn [fold_left fst snd]. rewrite onWindowResize_defined.
  cbn [Viewport.pixelRatio]. fold (Viewport.resizes sizes). rewrite IH.
  rewrite last_cons. by destruct (last sizes).
Qed.

(** X23.  However often the window is resized after [initAR], the renderer keeps
    the pixel ratio [initAR] gave it, which is at most 2; renderer and
    camera follow the last size: the renderer has its width and height and
    the aspect is the quotient of the two, as the code forms it, when the
    height is not zero.  Resizes before [initAR] do nothing. *)
Theorem resizes_keep_pixel_ratio (devicePixelRatio : option Q)
    (innerWidth innerHeight : Q) (sizes : list (Q * Q)) :
  let v := Viewport.resizes sizes
             (Viewport.initAR devicePixelRatio innerWidth innerHeight) in
  let size := default (innerWidth, innerHeight) (last sizes) in
  (exists r c,
     Viewport.renderer v = Some r /\ Viewport.camera v = Some c /\
     Viewport.pixelRatio r = Js.Math_min (default 1%Q devicePixelRatio) 2 /\
     (Viewport.pixelRatio r <= 2)%Q /\
     Viewport.width r = size.1 /\ Viewport.height r = size.2 /\
     (~ (size.2 == 0)%Q -> Viewport.aspect c = (size.1 / size.2)%Q)) /\
  Viewport.resizes sizes Viewport.undefined = Viewport.undefined.
Proof.
  intros v size. split.
  - subst v. unfold Viewport.initAR. rewrite resizes_defined. fold size.
    cbn. do 2 eexists. do 3 (split; [reflexivity |]).
    split; [apply Q.le_min_r |]. by repeat split.
  - clear. induction sizes as [|s sizes IH]; [reflexivity |]. exact IH.
Qed.

(** ** The earlier draft *)

(** X24.  In the draft, a frame whose first hit has no pose shows the reticle
    before the callback fails on [hitPose.transform]: the reticle is visible
    with the matrix it had and nothing else has changed.  A click then
    places the model at the translation of that old matrix (entries 12, 13
    and 14), at scale 0.2 on the three axes, and requests no animation. *)
Theorem draft_unresolved_pose_shows_reticle (frame : Draft.Frame) (st : App)
    (o om : Object3D) (m : Ref) (rest : list XRHitTestResult) (random : Q) :
  objects st !! reticle st = Some o ->
  model st = Some m ->
  m <> reticle st ->
  objects st !! m = Some om ->
  Draft.getViewerPose frame = Some () ->
  Draft.hitTestResults frame = mkXRHitTestResult None :: rest ->
  let r := Draft.animationLoop (Some frame) st in
  let M := matrix o in
  r.2 = Draft.TypeError /\
  objects r.1 !! reticle st =
    Some {| kind := kind o;
            visible := true;
            position := position o;
            rotation := rotation o;
            scale := scale o;
            matrix := matrix o;
            matrixAutoUpdate := matrixAutoUpdate o;
            children := children o |} /\
  (forall k, k <> reticle st -> objects r.1 !! k = objects st !! k) /\
  objects (Draft.click random r.1) !! m =
    Some {| kind := kind om;
            visible := true;
            position := Vector3.mk (nth 12 M 0%Q) (nth 13 M 0%Q) (nth 14 M 0%Q);
            rotation := Vector3.mk (Vector3.x (rotation om))
                          (random * Js.Math_PI * 2) (Vector3.z (rotation om));
            scale := Vector3.mk 0.2 0.2 0.2;
            matrix := matrix om;
            matrixAutoUpdate := matrixAutoUpdate om;
            children := children om |} /\
  frameRequests (Draft.click random r.1) = frameRequests st.
Proof.
  intros Ho Hm Hne Hom Hpose Hhits r M. subst r M.
  unfold Draft.animationLoop. rewrite Hpose, Hhits. cbn [getPose fst snd].
  split; [reflexivity |].
  split; [by rewrite lookup_update_eq, Ho |].
  split; [intros k Hk; by rewrite lookup_update_ne |].
  assert (Hvis : reticle_visible (update (reticle st) (set_visible true) st) = true).
  { unfold reticle_visible. cbn [reticle update set_objects].
    change (alter (set_visible true) (reticle st) (objects st))
      with (objects (update (reticle st) (set_visible true) st)).
    by rewrite lookup_update_eq, Ho. }
  assert (Hmat : reticle_matrix (update (reticle st) (set_visible true) st) = matrix o).
  { rewrite reticle_matrix_set_visible. unfold reticle_matrix. by rewrite Ho. }
  unfold Draft.click.
  change (model (update (reticle st) (set_visible true) st)) with (model st).
  rewrite Hm, Hvis, reticle_matrix_set_visible, Hmat.
  split; [| reflexivity].
  rewrite !lookup_update_eq. rewrite lookup_update_ne by done. by rewrite Hom.
Qed.

(** A session of the draft: a frame with a hit at the pose of the scenario,
    a frame without hits, which hides the reticle, and then the unresolved
    frame: the reticle is shown again at the pose of two frames before, and
    a click puts the box there. *)
Lemma draft_unresolved_pose_shows_reticle_witness :
  let hit := Draft.mkFrame (Some ()) [mkXRHitTestResult (Some Scenario.pose)] in
  let miss := Draft.mkFrame (Some ()) [] in
  let frame := Draft.mkFrame (Some ()) [mkXRHitTestResult None] in
  let st := (Draft.animationLoop (Some miss)
               (Draft.animationLoop (Some hit) Draft.setupScene).1).1 in
  let o :=
    {| kind := Mesh (RingGeometry 0.1 0.15 32) 0x00ff00;
       visible := false;
       position := Vector3.mk 0 0 0;
       rotation := Vector3.mk 0 0 0;
       scale := Vector3.mk 1 1 1;
       matrix := [1; 0; 0; 0;  0; 1; 0; 0;  0; 0; 1; 0;  1; 0; -2; 1]%Q;
       matrixAutoUpdate := false;
       children := [] |} in
  let om :=
    {| kind := Mesh (BoxGeometry 0.2 0.2 0.2) 0xff0000;
       visible := false;
       position := Vector3.mk 0 0 0;
       rotation := Vector3.mk 0 0 0;
       scale := Vector3.mk 1 1 1;
       matrix := Matrix4.identity;
       matrixAutoUpdate := true;
       children := [] |} in
  objects st !! reticle st = Some o /\
  model st = Some 3 /\
  objects st !! 3 = Some om /\
  let r := Draft.animationLoop (Some frame) st in
  r.2 = Draft.TypeError /\
  objects r.1 !! 2 =
    Some {| kind := Mesh (RingGeometry 0.1 0.15 32) 0x00ff00;
            visible := true;
            position := Vector3.mk 0 0 0;
            rotation := Vector3.mk 0 0 0;
            scale := Vector3.mk 1 1 1;
            matrix := [1; 0; 0; 0;  0; 1; 0; 0;  0; 0; 1; 0;  1; 0; -2; 1]%Q;
            matrixAutoUpdate := false;
            children := [] |} /\
  (forall k, k <> 2 -> objects r.1 !! k = objects st !! k) /\
  objects (Draft.click (1 # 2) r.1) !! 3 =
    Some {| kind := Mesh (BoxGeometry 0.2 0.2 0.2) 0xff0000;
            visible := true;
            position := Vector3.mk 1 0 (-2);
            rotation := Vector3.mk 0 ((1 # 2) * Js.Math_PI * 2) 0;
            scale := Vector3.mk 0.2 0.2 0.2;
            matrix := Matrix4.identity;
            matrixAutoUpdate := true;
            children := [] |} /\
  frameRequests (Draft.click (1 # 2) r.1) = [].
Proof.
  intros hit miss frame st o om.
  do 3 (split; [vm_compute; reflexivity |]).
  apply (draft_unresolved_pose_shows_reticle frame st o om 3 [] (1 # 2));
    first [vm_compute; reflexivity | vm_compute; lia].
Defined.

(** ** The draft's rig *)

(** The state after lines 206-239, written out. *)
Lemma createSkeletonModel_eq (headBox bodyBox legsBox : Rect) (imgW imgH : Q)
    (st : App) :
  let head := fresh st in
  let body := S head in
  let legs := S body in
  let group := S legs in
  let scale := 0.001%Q in
  let meshes :=
    mkApp
      (alter (set_position (Vector3.set 0
         (- (height bodyBox * scale) / 2 - (height legsBox * scale) / 2) 0)) legs
      (alter (set_position (Vector3.set 0 0 0)) body
      (alter (set_position (Vector3.set 0
         ((height bodyBox * scale) / 2 + (height headBox * scale) / 2) 0)) head
      (<[legs := new_Object3D (Mesh
         (BoxGeometry (width legsBox * scale) (height legsBox * scale) 0.1) 0x00ffff)]>
      (<[body := new_Object3D (Mesh
         (BoxGeometry (width bodyBox * scale) (height bodyBox * scale) 0.1) 0xff00ff)]>
      (<[head := new_Object3D (Mesh
         (BoxGeometry (width headBox * scale) (height headBox * scale) 0.1) 0xffff00)]>
      (objects st)))))))
      group (scene st) (reticle st) (model st) (frameRequests st) in
  let detached := detach_model meshes in
  Draft.createSkeletonModel headBox bodyBox legsBox imgW imgH st =
  attach_model group
    (set_objects
       (alter (fun o => set_children (children o ++ [legs]) o) group
       (alter (fun o => set_children (children o ++ [body]) o) group
       (alter (fun o => set_children (children o ++ [head]) o) group
       (<[group := new_Object3D Group]> (objects detached)))))
       (mkApp (objects detached) (S group) (scene st) (reticle st) (model st)
          (frameRequests st))).
Proof.
  cbv zeta. unfold Draft.createSkeletonModel, detach_model.
  cbn [construct update set_objects objects fresh scene reticle model frameRequests
       fst snd].
  destruct (model st); reflexivity.
Qed.


(** The four objects of the draft's rig. *)
Lemma createSkeletonModel_objects (headBox bodyBox legsBox : Rect) (imgW imgH : Q)
    (st : App) :
  scene st < fresh st ->
  let st' := Draft.createSkeletonModel headBox bodyBox legsBox imgW imgH st in
  let scale := 0.001%Q in
  model st' = Some (fresh st + 3) /\
  objects st' !! (fresh st + 3) =
    Some (set_visible false (set_children
            [fresh st; fresh st + 1; fresh st + 2] (new_Object3D Group))) /\
  objects st' !! fresh st =
    Some (set_position (Vector3.set 0
            ((height bodyBox * scale) / 2 + (height headBox * scale) / 2) 0)
          (new_Object3D (Mesh
            (BoxGeometry (width headBox * scale) (height headBox * scale) 0.1)
            0xffff00))) /\
  objects st' !! (fresh st + 1) =
    Some (set_position (Vector3.set 0 0 0)
          (new_Object3D (Mesh
            (BoxGeometry (width bodyBox * scale) (height bodyBox * scale) 0.1)
            0xff00ff))) /\
  objects st' !! (fresh st + 2) =
    Some (set_position (Vector3.set 0
            (- (height bodyBox * scale) / 2 - (height legsBox * scale) / 2) 0)
          (new_Object3D (Mesh
            (BoxGeometry (width legsBox * scale) (height legsBox * scale) 0.1)
            0x00ffff))).
Proof.
  intros Hs st' scale. subst st'.
  pose proof (createSkeletonModel_eq headBox bodyBox legsBox imgW imgH st) as E.
  cbv zeta in E. rewrite E. clear E.
  replace (fresh st + 3) with (S (S (S (fresh st)))) by lia.
  replace (fresh st + 2) with (S (S (fresh st))) by lia.
  replace (fresh st + 1) with (S (fresh st)) by lia.
  split; [reflexivity |].
  split.
  { rewrite lookup_attach_model_eq by (cbn [scene set_objects]; lia).
    cbn [objects set_objects]. store. reflexivity. }
  repeat split.
  all: rewrite lookup_attach_model_ne by (cbn [scene set_objects]; lia).
  all: cbn [objects set_objects]; store.
  all: rewrite lookup_detach_model_ne by (cbn [scene]; lia).
  all: cbn [objects]; store; reflexivity.
Qed.

Lemma createSkeletonModel_scene (headBox bodyBox legsBox : Rect) (imgW imgH : Q)
    (st : App) :
  scene st < fresh st ->
  let st' := Draft.createSkeletonModel headBox bodyBox legsBox imgW imgH st in
  scene st' = scene st /\
  objects st' !! scene st = scene_after st <$> objects st !! scene st.
Proof.
  intros Hs st'. subst st'.
  pose proof (createSkeletonModel_eq headBox bodyBox legsBox imgW imgH st) as E.
  cbv zeta in E. rewrite E. clear E.
  split; [reflexivity |].
  match goal with
  | |- objects (attach_model ?g ?X) !! _ = _ =>
      change (scene st) with (scene X) at 1;
      rewrite (lookup_attach_model_scene g X) by (cbn [scene set_objects]; lia)
  end.
  cbn [objects set_objects scene]. store.
  replace (S (S (S (fresh st)))) with (fresh st + 3) by lia.
  unfold detach_model, remove, scene_after. cbn [model scene].
  destruct (model st) as [m|].
  - rewrite lookup_update_eq. cbn [objects]. store.
    by destruct (objects st !! scene st).
  - cbn [objects]. store. by destruct (objects st !! scene st).
Qed.

Lemma replaceWithSkeleton_scene_object (parts : Parts) (st : App) :
  scene st < fresh st ->
  let st' := replaceWithSkeleton parts st in
  scene st' = scene st /\
  objects st' !! scene st = scene_after st <$> objects st !! scene st.
Proof.
  intros Hs st'. subst st'.
  destruct (skeleton_group_scene parts st Hs) as (Hgroup & Hscene & Hmod & Hlookup & _).
  split; [apply replaceWithSkeleton_frame |].
  rewrite replaceWithSkeleton_eq.
  rewrite <- Hscene at 1. rewrite <- (scene_detach_model (skeleton_group parts st).2).
  rewrite lookup_attach_model_scene by (rewrite scene_detach_model, Hscene, Hgroup; lia).
  rewrite scene_detach_model, Hscene, Hgroup.
  unfold detach_model, remove, scene_after. rewrite Hmod, Hscene.
  destruct (model st) as [m|].
  - rewrite lookup_update_eq, Hlookup. by destruct (objects st !! scene st).
  - rewrite Hlookup. by destruct (objects st !! scene st).
Qed.

Lemma model_object_eq (st : App) (m : Ref) (o : Object3D) :
  model st = Some m -> objects st !! m = Some o -> model_object st = Some o.
Proof. intros Hm Ho. unfold model_object. rewrite Hm. cbn. exact Ho. Qed.

(** X25.  The draft builds the rig that [replaceWithSkeleton] builds: the same
    model identity, the same scene, the same hidden group, and three solids
    with the same positions, widths and heights.  Only depth (0.1 for
    every solid of the draft) and colour differ. *)
Theorem draft_rig_as_replaceWithSkeleton (parts : Parts) (st : App) :
  scene st < fresh st ->
  let draft := Draft.createSkeletonModel (headBox parts) (bodyBox parts)
                 (legsBox parts) (imgW parts) (imgH parts) st in
  let final := replaceWithSkeleton parts st in
  model draft = model final /\
  scene draft = scene final /\
  scene_children draft = scene_children final /\
  model_object draft = model_object final /\
  exists head body legs head' body' legs',
    rig_of draft = Some (head, body, legs) /\
    rig_of final = Some (head', body', legs') /\
    face head = face head' /\ face body = face body' /\ face legs = face legs' /\
    Forall (fun o => exists w h c, kind o = Mesh (BoxGeometry w h 0.1) c)
      [head; body; legs].
Proof.
  intros Hs draft final.
  destruct (createSkeletonModel_objects (headBox parts) (bodyBox parts)
              (legsBox parts) (imgW parts) (imgH parts) st Hs)
    as (Hm & Hg & Hh & Hb & Hl).
  destruct (skeleton_objects parts st Hs) as (Hm' & Hg' & Hh' & Hb' & Hl').
  destruct (createSkeletonModel_scene (headBox parts) (bodyBox parts)
              (legsBox parts) (imgW parts) (imgH parts) st Hs) as (Hsc & Hso).
  destruct (replaceWithSkeleton_scene_object parts st Hs) as (Hsc' & Hso').
  fold draft in Hm, Hg, Hh, Hb, Hl, Hsc, Hso.
  fold final in Hm', Hg', Hh', Hb', Hl', Hsc', Hso'.
  split; [by rewrite Hm, Hm' |].
  split; [by rewrite Hsc, Hsc' |].
  split; [unfold scene_children; by rewrite Hsc, Hsc', Hso, Hso' |].
  split; [by rewrite (model_object_eq _ _ _ Hm Hg), (model_object_eq _ _ _ Hm' Hg') |].
  do 6 eexists.
  split; [exact (rig_of_eq _ _ _ _ _ _ _ _ _ Hm Hg eq_refl Hh Hb Hl) |].
  split; [exact (rig_of_eq _ _ _ _ _ _ _ _ _ Hm' Hg' eq_refl Hh' Hb' Hl') |].
  do 3 (split; [reflexivity |]).
  repeat constructor; cbn; by do 3 eexists.
Qed.

(** The parts of the scenario on the scene of the draft. *)
Lemma draft_rig_as_replaceWithSkeleton_witness :
  let draft := Draft.createSkeletonModel (headBox Scenario.parts)
                 (bodyBox Scenario.parts) (legsBox Scenario.parts)
                 (imgW Scenario.parts) (imgH Scenario.parts) Draft.setupScene in
  let final := replaceWithSkeleton Scenario.parts Draft.setupScene in
  model draft = model final /\
  scene draft = scene final /\
  scene_children draft = scene_children final /\
  model_object draft = model_object final /\
  exists head body legs head' body' legs',
    rig_of draft = Some (head, body, legs) /\
    rig_of final = Some (head', body', legs') /\
    face head = face head' /\ face body = face body' /\ face legs = face legs' /\
    Forall (fun o => exists w h c, kind o = Mesh (BoxGeometry w h 0.1) c)
      [head; body; legs].
Proof.
  apply (draft_rig_as_replaceWithSkeleton Scenario.parts Draft.setupScene).
  cbn; lia.
Defined.

(** ** The draft's extraction *)


